(** * unlurker-web-backend: a shallow embedding of the request handlers

    The development follows the Go sources of the web backend:
    - [Go]       : the pieces of the Go runtime the handlers lean on
                   (64-bit integers, [strconv], [time], [sort.Slice]);
    - [hn]       : the item type of the unlurker library;
    - [Tree]     : [findActiveChild] of the first revisions of [main.go];
    - [FrontPage]: [parseAge], [fetchFrontPageTimesInner] and
                   [fetchFrontPageTimes] of the revision that scrapes the
                   front page itself;
    - [Scraping] : the sorting [getActiveRoots] of that revision;
    - [Main]     : [getActiveRoots], [handleActive] and
                   [handleItemDescendants] of the current [main.go];
    - [unl], [Sample] : an implementation of the imports and inputs to
                   run the handlers on;
    - [Writer]   : [writeTree], [writeTreeRecurse], [writeItemIndent] and
                   the handler of /active of the first revisions;
    - [Extractor]: the expression [frontPageAgeExtractor] and its
                   [FindAllSubmatch].

Definitions come first, the theorems about them follow. *)

From Stdlib Require Import ZArith Lia Ascii String.
From stdpp Require Import base option list gmap strings pretty sorting.

Local Open Scope Z_scope.

(* ===================================================================== *)
(** ** Go runtime *)
(* ===================================================================== *)

Module Go.

(** Go [error] values, one constructor per place the handlers make one. *)
Inductive error : Type :=
| errUnexpectedAgeFormat (s : string)
| errParseAge
| errParseTime
| errParseID
| errCreateRequest
| errExecuteRequest
| errStatusNotOK (status : string)
| errReadBody
| errSingleflight (cause : error)
| errUpstream (msg : string).

Inductive result (A : Type) : Type :=
| Ok (a : A)
| Err (e : error).
Arguments Ok {A} a.
Arguments Err {A} e.

Definition is_ok {A} (r : result A) : bool :=
  match r with Ok _ => true | Err _ => false end.

(** *** int64 *)

Definition minInt64 : Z := - 2 ^ 63.
Definition maxInt64 : Z := 2 ^ 63 - 1.

(** Two's complement wrap-around of a 64-bit signed integer. *)
Definition wrap64 (z : Z) : Z := (z + 2 ^ 63) mod 2 ^ 64 - 2 ^ 63.

Definition in_int64 (z : Z) : bool := (minInt64 <=? z) && (z <=? maxInt64).

(** *** strconv *)

Definition is_digit (c : ascii) : bool :=
  let n := Z.of_N (N_of_ascii c) in (48 <=? n) && (n <=? 57).

Definition digit_val (c : ascii) : Z := Z.of_N (N_of_ascii c) - 48.

(** The decimal value of a string of digits, [None] on any other byte. *)
Fixpoint digits_val (acc : Z) (s : string) : option Z :=
  match s with
  | EmptyString => Some acc
  | String c s' =>
      if is_digit c then digits_val (acc * 10 + digit_val c) s' else None
  end.

(** [strconv.ParseUint(s, 10, 64)] before the range check: the string
    has to be a non-empty run of digits. *)
Definition parse_digits (s : string) : option Z :=
  match s with
  | EmptyString => None
  | _ => digits_val 0 s
  end.

(** [strconv.ParseInt(s, 10, 64)]: an optional sign, digits, and the
    value has to fit an int64 ([None] stands for [ErrSyntax] and
    [ErrRange] alike). *)
Definition ParseInt (s : string) : option Z :=
  let signed :=
    match s with
    | String "+" s' => option_map (fun v => v) (parse_digits s')
    | String "-" s' => option_map Z.opp (parse_digits s')
    | _ => parse_digits s
    end in
  match signed with
  | Some v => if in_int64 v then Some v else None
  | None => None
  end.

(** [strconv.Atoi]: [ParseInt(s, 10, 0)] with a 64-bit [int]. *)
Definition Atoi (s : string) : option Z := ParseInt s.

(** *** time

    A [time.Time] is an instant, kept as the number of nanoseconds since
    the Unix epoch; a [time.Duration] is an int64 count of nanoseconds,
    with the wrap-around of its arithmetic written out. *)

Definition Time : Type := Z.
Definition Duration : Type := Z.

Definition Nanosecond : Duration := 1.
Definition Second : Duration := 1000000000.
Definition Minute : Duration := 60 * Second.
Definition Hour : Duration := 60 * Minute.

Definition minDuration : Duration := minInt64.
Definition maxDuration : Duration := maxInt64.

(** [time.Unix(sec, 0)] *)
Definition Unix (sec : Z) : Time := sec * Second.

(** [t.Unix()]: whole seconds since the epoch, rounded down. *)
Definition Time_Unix (t : Time) : Z := t / Second.

(** [t.Add(d)] *)
Definition Time_Add (t : Time) (d : Duration) : Time := t + d.

(** [t.Sub(u)]: the difference, saturated to the range of a Duration. *)
Definition Time_Sub (t u : Time) : Duration :=
  Z.max minDuration (Z.min maxDuration (t - u)).

(** [t.After(u)] *)
Definition Time_After (t u : Time) : bool := u <? t.

(** Duration arithmetic of the language: [-d], [a - b], [a * b]. *)
Definition dneg (d : Duration) : Duration := wrap64 (- d).
Definition dsub (a b : Duration) : Duration := wrap64 (a - b).
Definition dmul (a b : Duration) : Duration := wrap64 (a * b).

(** *** sort.Slice

    [sort.Slice(x, less)] reorders [x] so that no later element is
    [less] than an earlier one; it is not stable.  The model inserts
    every element in front of the first one it is not behind, which is
    one of the orders the library may produce. *)
Fixpoint sort_insert {A} (less : A -> A -> bool) (x : A) (l : list A) : list A :=
  match l with
  | [] => [x]
  | y :: l' => if less y x then y :: sort_insert less x l' else x :: l
  end.

Definition sort_Slice {A} (less : A -> A -> bool) (l : list A) : list A :=
  foldr (sort_insert less) [] l.

End Go.

Export Go.

(* ===================================================================== *)
(** ** Types of the unlurker library *)
(* ===================================================================== *)

Module hn.

(** [hn.Item], with the fields the handlers read.  [Parent] is a
    pointer in the source, absent for a story. *)
Record Item : Type := mkItem {
  ID : Z;
  By : string;
  Time : Z;
  Parent : option Z;
  Dead : bool;
  Deleted : bool;
  Title : string;
}.

(** [hn.ItemSet]: the children of one parent, in the order [Slice()]
    lists them. *)
Definition ItemSet : Type := list Item.

End hn.

(** [map[int]hn.ItemSet]: looking up an id with no entry gives the empty
    set. *)
Definition childrenOf (allByParent : gmap Z hn.ItemSet) (id : Z) : hn.ItemSet :=
  default [] (allByParent !! id).

(* ===================================================================== *)
(** ** The tree writer of the first revisions *)
(* ===================================================================== *)

Module Tree.
Import hn.

(** The test both [writeTreeRecurse] and [findActiveChild] apply to an
    item: [time.Unix(item.Time, 0).After(activeAfter) && !item.Dead &&
    !item.Deleted]. *)
Definition isActive (item : Item) (activeAfter : Go.Time) : bool :=
  Time_After (Unix (Time item)) activeAfter
  && negb (Dead item) && negb (Deleted item).

(** The loop of [findActiveChild] over [allByParent[item.ID]]. *)
Fixpoint anyActive (children : ItemSet) (activeAfter : Go.Time) : bool :=
  match children with
  | [] => false
  | child :: rest =>
      if isActive child activeAfter then true else anyActive rest activeAfter
  end.

Definition findActiveChild
    (item : Item) (allByParent : gmap Z ItemSet) (activeAfter : Go.Time) : bool :=
  anyActive (childrenOf allByParent (ID item)) activeAfter.

(** [showText] as [writeTreeRecurse] hands it to [writeItemIndent]. *)
Definition showText
    (item : Item) (allByParent : gmap Z ItemSet) (activeAfter : Go.Time) : bool :=
  isActive item activeAfter
  || findActiveChild item allByParent activeAfter
  || bool_decide (Parent item = None).

(** [d] is a reply below [a]: a child, or a reply below a child. *)
Inductive descendant (allByParent : gmap Z ItemSet) : Item -> Item -> Prop :=
| descendant_child a c :
    c ∈ childrenOf allByParent (ID a) -> descendant allByParent a c
| descendant_below a c d :
    c ∈ childrenOf allByParent (ID a) ->
    descendant allByParent c d -> descendant allByParent a d.

End Tree.

(* ===================================================================== *)
(** ** The front-page scrape *)
(* ===================================================================== *)

Module FrontPage.

(** *** parseAge *)

(** [\s] of the regular expressions: tab, newline, form feed, carriage
    return, space. *)
Definition is_space (c : ascii) : bool :=
  let n := Z.of_N (N_of_ascii c) in
  (n =? 9) || (n =? 10) || (n =? 12) || (n =? 13) || (n =? 32).

Fixpoint drop_while (p : ascii -> bool) (s : string) : string :=
  match s with
  | EmptyString => EmptyString
  | String c s' => if p c then drop_while p s' else s
  end.

Fixpoint take_while (p : ascii -> bool) (s : string) : string :=
  match s with
  | EmptyString => EmptyString
  | String c s' => if p c then String c (take_while p s') else EmptyString
  end.

(** Every byte of [s] is in the class [p]. *)
Fixpoint all_chars (p : ascii -> bool) (s : string) : bool :=
  match s with
  | EmptyString => true
  | String c s' => p c && all_chars p s'
  end.

Definition is_unit (w : string) : bool :=
  bool_decide (w ∈ ["hour"; "hours"; "minute"; "minutes"; "day"; "days"]%string).

(** [relativeAgeRegex.FindStringSubmatch]: the groups [m[1]] and [m[2]]
    of [^\s*(\d+)\s+(hour|hours|minute|minutes|day|days)\s*$], or [None]
    when the string does not match.  Every class of the expression is
    followed by a byte outside it, so each greedy run is the whole run. *)
Definition relativeAgeRegex (s : string) : option (string * string) :=
  let s1 := drop_while is_space s in
  let num := take_while is_digit s1 in
  let s2 := drop_while is_digit s1 in
  let gap := take_while is_space s2 in
  let s3 := drop_while is_space s2 in
  let word := take_while (fun c => negb (is_space c)) s3 in
  let s4 := drop_while (fun c => negb (is_space c)) s3 in
  if bool_decide (num = EmptyString) then None
  else if bool_decide (gap = EmptyString) then None
  else if negb (is_unit word) then None
  else if bool_decide (drop_while is_space s4 = EmptyString)
       then Some (num, word) else None.

Definition parseAge (s : string) : result Duration :=
  match relativeAgeRegex s with
  | None => Err (errUnexpectedAgeFormat s)
  | Some (m1, m2) =>
      match Atoi m1 with
      | None => Err errParseAge
      | Some n =>
          if bool_decide (m2 = "minute" \/ m2 = "minutes")%string
          then Ok (dmul n Minute)
          else if bool_decide (m2 = "hour" \/ m2 = "hours")%string
          then Ok (dmul n Hour)
          else if bool_decide (m2 = "day" \/ m2 = "days")%string
          then Ok (dmul (dmul n 24) Hour)
          else Err (errUnexpectedAgeFormat m2)
      end
  end.

(** *** fetchFrontPageTimesInner *)

(** One match of [frontPageAgeExtractor]: the groups [match[1]] (the
    timestamp of the [title] attribute), [match[2]] (the item id) and
    [match[3]] (the phrase in front of [ ago]). *)
Record Match : Type := mkMatch {
  m_ts : string;
  m_id : string;
  m_age : string;
}.

(** The body of the loop over the matches: the entry written to [m]. *)
Definition drift (now : Go.Time) (ts : Z) (age : Duration) : Duration :=
  dsub (Time_Sub now (Unix ts)) age.

Definition effectiveTime (now : Go.Time) (ts : Z) (age : Duration) : Z :=
  if 2 * Hour <? drift now ts age
  then Time_Unix (Time_Add now (dneg age))
  else ts.

Fixpoint extract (now : Go.Time) (matches : list Match) (m : gmap Z Z)
    : result (gmap Z Z) :=
  match matches with
  | [] => Ok m
  | mt :: rest =>
      match ParseInt (m_ts mt) with
      | None => Err errParseTime
      | Some ts =>
          match Atoi (m_id mt) with
          | None => Err errParseID
          | Some id =>
              match parseAge (m_age mt) with
              | Err e => Err e
              | Ok age => extract now rest (<[id := effectiveTime now ts age]> m)
              end
          end
      end
  end.

(** What [http.DefaultClient.Do] and [io.ReadAll] come back with. *)
Inductive response : Type :=
| RequestNotCreated
| RequestFailed
| Status (code : Z) (status : string) (body : option string).

(** [fetchCacheEntry] and the process-wide state: the [fetchCache]
    value and the number of requests sent to the front page so far. *)
Record fetchCacheEntry : Type := mkEntry {
  data : gmap Z Z;
  ts : Go.Time;
}.

Record World : Type := mkWorld {
  fetchCache : option fetchCacheEntry;
  requests : nat;
}.

(** One call of the resolver meets: the clock read by [time.Since], the
    answer of the front page, and the clock read when the entry is
    stored. *)
Record Env : Type := mkEnv {
  clock : Go.Time;
  answer : response;
  storeClock : Go.Time;
}.

Section Scrape.
(** [frontPageAgeExtractor.FindAllSubmatch(body, -1)] *)
Variable FindAllSubmatch : string -> list Match.

Definition fetchFrontPageTimesInner (w : World) (env : Env) (now : Go.Time)
    : result (gmap Z Z) * World :=
  match answer env with
  | RequestNotCreated => (Err errCreateRequest, w)
  | RequestFailed =>
      (Err errExecuteRequest, mkWorld (fetchCache w) (S (requests w)))
  | Status code status body =>
      let w1 := mkWorld (fetchCache w) (S (requests w)) in
      if negb (code =? 200) then (Err (errStatusNotOK status), w1)
      else match body with
           | None => (Err errReadBody, w1)
           | Some body =>
               match extract now (FindAllSubmatch body) ∅ with
               | Err e => (Err e, w1)
               | Ok m =>
                   (Ok m, mkWorld (Some (mkEntry m (storeClock env)))
                                  (requests w1))
               end
           end
  end.

(** [fetchFrontPageTimes].  [fetchGroup.Do] runs the function it is
    given when no other call for the key is in flight, which is the
    case of a caller on its own. *)
Definition fetchFrontPageTimes (w : World) (env : Env) (now : Go.Time)
    : result (gmap Z Z) * World :=
  let fresh :=
    match fetchCache w with
    | Some entry => Time_Sub (clock env) (ts entry) <? Minute
    | None => false
    end in
  match fetchCache w, fresh with
  | Some entry, true => (Ok (data entry), w)
  | _, _ =>
      match fetchFrontPageTimesInner w env now with
      | (Err e, w') => (Err (errSingleflight e), w')
      | (Ok times, w') => (Ok times, w')
      end
  end.
End Scrape.

End FrontPage.

(* ===================================================================== *)
(** ** What the handlers import from package unl and from the client *)
(* ===================================================================== *)

(** [unl.FlatItem]: an item with its depth below the root. *)
Record FlatItem : Type := mkFlat {
  Item : hn.Item;
  Depth : Z;
}.

(** [handleActiveRoot] *)
Record handleActiveRoot : Type := mkRoot {
  root_Item : hn.Item;
  root_Time : Z;
}.

(** The functions and constants [main.go] calls and does not define:
    package [unl], [hn.Client], [core.MapCache], [time.ParseDuration].
    The handlers are written over any implementation of them. *)
Record Library : Type := mkLibrary {
  ParseDuration : string -> option Duration;
  FetchFrontPageTimes : Go.Time -> result (gmap Z Z);
  GetActive :
    gmap Z Z -> Go.Time -> Go.Time -> Z -> Z ->
    result (list hn.Item * gmap Z hn.ItemSet);
  GetItems : list Z -> result (gmap Z hn.Item);
  GetDescendants : gmap Z hn.Item -> result (gmap Z hn.Item);
  GroupByParent : gmap Z hn.Item -> result (gmap Z hn.ItemSet);
  FlattenTree : option hn.Item -> gmap Z hn.ItemSet -> list FlatItem;
  BuildActiveMap : list FlatItem -> Go.Time -> gmap Z Z;
  ActiveMapSelf : Z;
  ActiveMapChild : Z;
  PrettyFormatTitle : hn.Item -> bool -> string;
  PrettyFormatDuration : Duration -> string;
  MapCache : Type;
  MapCache_Get : MapCache -> hn.Item -> option string * MapCache;
  MapCache_Put : MapCache -> hn.Item -> string -> MapCache;
}.

(* ===================================================================== *)
(** ** The revision with its own scrape: getActiveRoots *)
(* ===================================================================== *)

Module Scraping.
Import hn FrontPage.

Section Handler.
Variable FindAllSubmatch : string -> list Match.
(** [unl.GetActive] of that revision takes no front-page times. *)
Variable GetActive :
  Go.Time -> Go.Time -> Z -> Z -> result (list hn.Item * gmap Z hn.ItemSet).

(** The loop over [items]: a front-page time counts when it is later
    than the item's own. *)
Fixpoint keepRoots
    (frontPageTimes : gmap Z Z) (agedAfter : Go.Time) (items : list hn.Item)
    : list handleActiveRoot :=
  match items with
  | [] => []
  | item :: rest =>
      let t :=
        match frontPageTimes !! ID item with
        | Some updated => if Time item <? updated then updated else Time item
        | None => Time item
        end in
      if Time_After (Unix t) agedAfter
      then mkRoot item t :: keepRoots frontPageTimes agedAfter rest
      else keepRoots frontPageTimes agedAfter rest
  end.

(** The [less] function handed to [sort.Slice]. *)
Definition less (a b : handleActiveRoot) : bool :=
  if root_Time a =? root_Time b
  then ID (root_Item b) <? ID (root_Item a)
  else root_Time b <? root_Time a.

Definition oneWeek : Duration := 7 * 24 * Hour.

(** [getActiveRoots]; [clock] is what [time.Now()] reads for the
    second [agedAfter]. *)
Definition getActiveRoots
    (w : World) (env : Env) (clock : Go.Time)
    (now activeAfter : Go.Time) (maxAge : Duration) (minBy : Z)
    : result (list handleActiveRoot * gmap Z hn.ItemSet) * World :=
  let agedAfter := Time_Add now (dneg oneWeek) in
  match GetActive activeAfter agedAfter minBy 0 with
  | Err e => (Err e, w)
  | Ok (items, tree) =>
      let '(fetched, w') := fetchFrontPageTimes FindAllSubmatch w env now in
      let frontPageTimes :=
        match fetched with Ok times => times | Err _ => ∅ end in
      let agedAfter := Time_Add clock (dneg maxAge) in
      let roots := keepRoots frontPageTimes agedAfter items in
      (Ok (sort_Slice less roots, tree), w')
  end.
End Handler.

End Scraping.

(* ===================================================================== *)
(** ** The current main.go *)
(* ===================================================================== *)

Module handleActiveResponseItem.
Record t : Type := mk {
  By : string;
  Text : string;
  Age : string;
  ID : Z;
  Depth : Z;
  Active : bool;
  SecondChance : bool;
}.
End handleActiveResponseItem.

Module handleActiveResponse.
Record t : Type := mk {
  Items : list handleActiveResponseItem.t;
  SecondChanceFailed : bool;
}.
End handleActiveResponse.

Module handleItemDescendantsResponse.
Record t : Type := mk {
  By : string;
  Text : string;
  Time : Z;
  ID : Z;
  Depth : Z;
}.
End handleItemDescendantsResponse.

Module Main.

(** What [c.PureJSON] is called with. *)
Inductive reply : Type :=
| BadRequest (msg : string)
| InternalServerError (e : error)
| OKActive (r : handleActiveResponse.t)
| OKTree (r : list handleItemDescendantsResponse.t).

(** [c.DefaultQuery(key, def)] over the query parameters of the
    request. *)
Definition DefaultQuery (query : gmap string string) (key def : string) : string :=
  default def (query !! key).

Section Handlers.
Variable L : Library.

Definition formatText (item : hn.Item) (textCache : MapCache L)
    : string * MapCache L :=
  match MapCache_Get L textCache item with
  | (Some value, textCache') => (value, textCache')
  | (None, textCache') =>
      let text := PrettyFormatTitle L item true in
      (text, MapCache_Put L textCache' item text)
  end.

(** The loop of [getActiveRoots] over [items]. *)
Fixpoint keepRoots
    (frontPageTimes : gmap Z Z) (agedAfter : Go.Time) (items : list hn.Item)
    : list handleActiveRoot :=
  match items with
  | [] => []
  | item :: rest =>
      let t :=
        match frontPageTimes !! hn.ID item with
        | Some adjusted => adjusted
        | None => hn.Time item
        end in
      if Time_After (Unix t) agedAfter
      then mkRoot item t :: keepRoots frontPageTimes agedAfter rest
      else keepRoots frontPageTimes agedAfter rest
  end.

(** [getActiveRoots]: roots and tree, or the error, next to
    [secondChanceFailed].  A nil [frontPageTimes] reads as the empty
    map.  [clock] is what [time.Now()] reads for [agedAfter]. *)
Definition getActiveRoots
    (clock : Go.Time) (now activeAfter : Go.Time) (maxAge : Duration) (minBy : Z)
    : result (list handleActiveRoot * gmap Z hn.ItemSet) * bool :=
  let '(frontPageTimes, secondChanceFailed) :=
    match FetchFrontPageTimes L now with
    | Ok times => (times, false)
    | Err _ => (∅, true)
    end in
  let agedAfter := Time_Add clock (dneg maxAge) in
  match GetActive L frontPageTimes activeAfter agedAfter minBy 0 with
  | Err e => (Err e, secondChanceFailed)
  | Ok (items, tree) =>
      (Ok (keepRoots frontPageTimes agedAfter items, tree), secondChanceFailed)
  end.

(** The body of the inner loop of [handleActive]. *)
Definition renderItem
    (user : Z) (now : Go.Time) (root : handleActiveRoot)
    (activeMap : gmap Z Z) (item : FlatItem) (textCache : MapCache L)
    : handleActiveResponseItem.t * MapCache L :=
  let ae := default 0 (activeMap !! hn.ID (Item item)) in
  let isRoot := bool_decide (hn.ID (Item item) = hn.ID (root_Item root)) in
  let t := if isRoot then root_Time root else hn.Time (Item item) in
  let secondChance :=
    isRoot && negb (hn.Time (Item item) =? root_Time root) in
  let '(text, textCache') :=
    if negb (ae =? 0) then formatText (Item item) textCache
    else (EmptyString, textCache) in
  let by' := if negb (user =? 1) then EmptyString else hn.By (Item item) in
  (handleActiveResponseItem.mk
     by' text
     (PrettyFormatDuration L (Time_Sub now (Unix t)))
     (hn.ID (Item item)) (Depth item)
     (0 <? Z.land ae (ActiveMapSelf L))
     secondChance,
   textCache').

Fixpoint renderFlat
    (user : Z) (now : Go.Time) (root : handleActiveRoot)
    (activeMap : gmap Z Z) (flat : list FlatItem) (textCache : MapCache L)
    : list handleActiveResponseItem.t * MapCache L :=
  match flat with
  | [] => ([], textCache)
  | item :: rest =>
      let '(r, c1) := renderItem user now root activeMap item textCache in
      let '(rs, c2) := renderFlat user now root activeMap rest c1 in
      (r :: rs, c2)
  end.

(** What the outer loop works with for one root: [flat] and the
    [activeMap] after the root's entry is assigned. *)
Definition flatOf (root : handleActiveRoot) (tree : gmap Z hn.ItemSet)
    : list FlatItem :=
  FlattenTree L (Some (root_Item root)) tree.

Definition activeMapOf
    (root : handleActiveRoot) (flat : list FlatItem) (activeAfter : Go.Time)
    : gmap Z Z :=
  <[hn.ID (root_Item root) := ActiveMapChild L]>
    (BuildActiveMap L flat activeAfter).

Fixpoint renderRoots
    (user : Z) (now activeAfter : Go.Time) (tree : gmap Z hn.ItemSet)
    (roots : list handleActiveRoot) (textCache : MapCache L)
    : list handleActiveResponseItem.t * MapCache L :=
  match roots with
  | [] => ([], textCache)
  | root :: rest =>
      let flat := flatOf root tree in
      let activeMap := activeMapOf root flat activeAfter in
      let '(items, c1) := renderFlat user now root activeMap flat textCache in
      let '(more, c2) := renderRoots user now activeAfter tree rest c1 in
      (items ++ more, c2)
  end.

(** [handleActive]: [query] holds the query parameters, [now] and
    [clock] are the two readings of [time.Now()]. *)
Definition handleActive
    (query : gmap string string) (now clock : Go.Time) (textCache : MapCache L)
    : reply * MapCache L :=
  match ParseDuration L (DefaultQuery query "window" "1h") with
  | None => (BadRequest "invalid window duration", textCache)
  | Some window =>
  match ParseDuration L (DefaultQuery query "max-age" "24h") with
  | None => (BadRequest "invalid max_age duration", textCache)
  | Some maxAge =>
  match Atoi (DefaultQuery query "min-by" "3") with
  | None => (BadRequest "invalid min_by", textCache)
  | Some minBy =>
  match Atoi (DefaultQuery query "user" "1") with
  | None => (BadRequest "invalid user", textCache)
  | Some user =>
      let activeAfter := Time_Add now (dneg window) in
      match getActiveRoots clock now activeAfter maxAge minBy with
      | (Err e, _) => (InternalServerError e, textCache)
      | (Ok (roots, tree), secondChanceFailed) =>
          let '(items, textCache') :=
            renderRoots user now activeAfter tree roots textCache in
          (OKActive (handleActiveResponse.mk items secondChanceFailed),
           textCache')
      end
  end end end end.


End Handlers.

End Main.

(* ===================================================================== *)
(** ** An implementation of the imports, to run the handlers on inputs *)
(* ===================================================================== *)

Module unl.

(** Modelled from the spec: the constants [unl.ActiveMapSelf] and
    [unl.ActiveMapChild] are declared in package unl; the mark is a
    bitset over SELF and CHILD, so they are two distinct bits. *)
Definition ActiveMapSelf : Z := 1.
Definition ActiveMapChild : Z := 2.

(** Modelled from the spec: [unl.FlattenTree] is defined in package
    unl; a depth-first, pre-order walk from the root at depth 0 into
    [graph[node.id]] in stored child order, one more level of depth per
    step down.  [fuel] bounds the depth of the walk. *)
Fixpoint flatten
    (fuel : nat) (tree : gmap Z hn.ItemSet) (item : hn.Item) (depth : Z)
    : list FlatItem :=
  match fuel with
  | O => []
  | S fuel' =>
      mkFlat item depth
      :: concat (map (fun child => flatten fuel' tree child (depth + 1))
                     (childrenOf tree (hn.ID item)))
  end.

Definition FlattenTree (root : option hn.Item) (tree : gmap Z hn.ItemSet)
    : list FlatItem :=
  match root with
  | None => []
  | Some item =>
      flatten (S (map_fold (fun _ cs n => (length cs + n)%nat) O tree)) tree item 0
  end.

(** Modelled from the spec: [unl.BuildActiveMap] is defined in package
    unl; SELF is set for an item created after the cutoff that is
    neither dead nor deleted, CHILD when any item below it has SELF.
    In a pre-order list the items below a node are the ones that follow
    it for as long as their depth is greater. *)
Fixpoint anyBelow (depth : Z) (rest : list FlatItem) (activeAfter : Go.Time) : bool :=
  match rest with
  | [] => false
  | f :: rest' =>
      if Depth f <=? depth then false
      else Tree.isActive (Item f) activeAfter || anyBelow depth rest' activeAfter
  end.

Fixpoint BuildActiveMap (flat : list FlatItem) (activeAfter : Go.Time) : gmap Z Z :=
  match flat with
  | [] => ∅
  | f :: rest =>
      let self :=
        if Tree.isActive (Item f) activeAfter then ActiveMapSelf else 0 in
      let child :=
        if anyBelow (Depth f) rest activeAfter then ActiveMapChild else 0 in
      <[hn.ID (Item f) := Z.lor self child]> (BuildActiveMap rest activeAfter)
  end.

(** The values of [time.ParseDuration] at the durations the examples
    send; every other string is refused here. *)
Definition ParseDuration (s : string) : option Duration :=
  if bool_decide (s = "1h"%string) then Some Hour
  else if bool_decide (s = "24h"%string) then Some (24 * Hour)
  else if bool_decide (s = "5m"%string) then Some (5 * Minute)
  else None.

(** A library over a fixed answer of the front page and of the item
    client, with a text cache that keeps nothing. *)
Definition library
    (frontPage : result (gmap Z Z))
    (active : result (list hn.Item * gmap Z hn.ItemSet)) : Library :=
  mkLibrary
    ParseDuration
    (fun _ => frontPage)
    (fun _ _ _ _ _ => active)
    (fun ids =>
       match active with
       | Ok (items, _) =>
           Ok (list_to_map
                 (map (fun item => (hn.ID item, item))
                      (filter (fun item => hn.ID item ∈ ids) items)))
       | Err e => Err e
       end)
    (fun items => Ok items)
    (fun _ => match active with Ok (_, tree) => Ok tree | Err e => Err e end)
    FlattenTree
    BuildActiveMap
    ActiveMapSelf
    ActiveMapChild
    (fun item _ => hn.Title item)
    (fun d => pretty (Z.quot d Minute) +:+ "m")
    unit
    (fun c _ => (None, c))
    (fun c _ _ => c).

(** A story, a stale reply to it, and a fresh reply to that reply. *)
Definition story : hn.Item := hn.mkItem 1 "alice" 999940 None false false "Show".
Definition reply1 : hn.Item := hn.mkItem 2 "bob" 990000 (Some 1) false false "first".
Definition reply2 : hn.Item := hn.mkItem 3 "carol" 999900 (Some 2) false false "second".
Definition thread : gmap Z hn.ItemSet := {[ 1 := [reply1]; 2 := [reply2] ]}.

End unl.

(* ===================================================================== *)
(** ** Inputs for the front-page scrape *)
(* ===================================================================== *)

Module Sample.
Import FrontPage.

(** Three fragments seen at second 1000000: thirty minutes old by both
    signals, resurfaced (a day old by the timestamp, three hours by the
    phrase), and thirty minutes old with a phrase of five hours. *)
Definition matches : list Match :=
  [mkMatch "998200" "7" "30 minutes";
   mkMatch "913600" "9" "3 hours";
   mkMatch "998200" "8" "5 hours"].

(** The same page with the phrase of the second fragment damaged. *)
Definition damaged : list Match :=
  [mkMatch "998200" "7" "30 minutes";
   mkMatch "913600" "9" "a moment";
   mkMatch "998200" "8" "5 hours"].

Definition extractor (body : string) : list Match :=
  if bool_decide (body = "front page"%string) then matches
  else if bool_decide (body = "damaged page"%string) then damaged
  else [].

Definition now : Go.Time := Unix 1000000.

Definition page (body : string) : Env :=
  mkEnv now (Status 200 "200 OK" (Some body)) (now + Second).

Definition empty : World := mkWorld None 0.

Definition times : gmap Z Z := {[ 7 := 998200; 9 := 989200; 8 := 998200 ]}.

Definition cached : World := mkWorld (Some (mkEntry times (now + Second))) 1.

(** Two stories posted in the same second, and what the item client
    answers with them. *)
Definition story100 : hn.Item := hn.mkItem 100 "dan" 999000 None false false "One".
Definition story200 : hn.Item := hn.mkItem 200 "eve" 999000 None false false "Two".

Definition active (_ _ : Go.Time) (_ _ : Z)
    : result (list hn.Item * gmap Z hn.ItemSet) :=
  Ok ([story100; story200], ∅).

End Sample.

(* ===================================================================== *)
(** ** The tree writer: writeTree, writeTreeRecurse, writeItemIndent *)
(* ===================================================================== *)

Module prettyLine.
Record t : Type := mk {
  By : string;
  Age : string;
  Indent : string;
  Text : string;
  ID : Z;
  Root : bool;
  Active : bool;
}.
End prettyLine.

Module Writer.

Section Writer.
Variable L : Library.

(** [prettyWriter], of the revision that has the text cache. *)
Record prettyWriter : Type := mkWriter {
  textCache : MapCache L;
  now : Go.Time;
  activeAfter : Go.Time;
  lines : list prettyLine.t;
}.

Definition writeItemIndent
    (pw : prettyWriter) (item : hn.Item) (showText isActive : bool) (indent : string)
    : prettyWriter :=
  let by' := hn.By item in
  let age := PrettyFormatDuration L (Time_Sub (now pw) (Unix (hn.Time item))) in
  let '(text, cache) :=
    if showText then
      match MapCache_Get L (textCache pw) item with
      | (Some value, cache) => (value, cache)
      | (None, cache) =>
          let text := PrettyFormatTitle L item true in
          (text, MapCache_Put L cache item text)
      end
    else (EmptyString, textCache pw) in
  mkWriter cache (now pw) (activeAfter pw)
    (lines pw ++
     [prettyLine.mk by' age indent text (hn.ID item)
        (bool_decide (hn.Parent item = None)) isActive]).

(** The loop of [writeTreeRecurse] over [cc]; [recurse] is the call for
    one child.  Every child but the last is drawn with a bar. *)
Fixpoint writeChildren
    (recurse : prettyWriter -> hn.Item -> string -> option prettyWriter)
    (indent : string) (cc : list hn.Item) (pw : prettyWriter)
    : option prettyWriter :=
  match cc with
  | [] => Some pw
  | child :: rest =>
      let childIndent :=
        match rest with
        | _ :: _ => (indent +:+ "|")%string
        | [] => (indent +:+ " ")%string
        end in
      match recurse pw child childIndent with
      | Some pw' => writeChildren recurse indent rest pw'
      | None => None
      end
  end.

(** [writeTreeRecurse]; the recursion of the source follows the replies
    as deep as they go, [fuel] bounds the depth and [None] stands for a
    walk that has not come back within it. *)
Fixpoint writeTreeRecurse
    (fuel : nat) (pw : prettyWriter) (item : hn.Item)
    (allByParent : gmap Z hn.ItemSet) (indent : string) : option prettyWriter :=
  match fuel with
  | O => None
  | S fuel' =>
      let isActive := Tree.isActive item (activeAfter pw) in
      let hasActiveChild := Tree.findActiveChild item allByParent (activeAfter pw) in
      let pw1 :=
        writeItemIndent pw item
          (isActive || hasActiveChild || bool_decide (hn.Parent item = None))
          isActive indent in
      writeChildren
        (fun pw child childIndent =>
           writeTreeRecurse fuel' pw child allByParent childIndent)
        indent (childrenOf allByParent (hn.ID item)) pw1
  end.

Definition writeTree
    (fuel : nat) (pw : prettyWriter) (item : hn.Item)
    (allByParent : gmap Z hn.ItemSet) : option prettyWriter :=
  writeTreeRecurse fuel pw item allByParent EmptyString.

(** What the handler of /active answers in that revision. *)
Inductive reply : Type :=
| BadRequest (msg : string)
| InternalServerError (e : error)
| OKLines (lines : list prettyLine.t).

(** The loop of the handler over [items]. *)
Fixpoint writeTrees
    (fuel : nat) (pw : prettyWriter) (items : list hn.Item)
    (allByParent : gmap Z hn.ItemSet) : option prettyWriter :=
  match items with
  | [] => Some pw
  | item :: rest =>
      match writeTree fuel pw item allByParent with
      | Some pw' => writeTrees fuel pw' rest allByParent
      | None => None
      end
  end.

(** [unl.GetActive] of that revision takes no front-page times. *)
Variable GetActive :
  Go.Time -> Go.Time -> Z -> Z -> result (list hn.Item * gmap Z hn.ItemSet).

(** The handler of /active: the reply and the text cache it leaves, or
    [None] when a walk has not come back within [fuel]. *)
Definition handleActive
    (fuel : nat) (query : gmap string string) (now : Go.Time)
    (textCache : MapCache L) : option (reply * MapCache L) :=
  match ParseDuration L (Main.DefaultQuery query "window" "1h") with
  | None => Some (BadRequest "invalid window duration", textCache)
  | Some window =>
  match ParseDuration L (Main.DefaultQuery query "max-age" "24h") with
  | None => Some (BadRequest "invalid max_age duration", textCache)
  | Some maxAge =>
  match Atoi (Main.DefaultQuery query "min-by" "3") with
  | None => Some (BadRequest "invalid min_by", textCache)
  | Some minBy =>
      let activeAfter := Time_Add now (dneg window) in
      let agedAfter := Time_Add now (dneg maxAge) in
      match GetActive activeAfter agedAfter minBy 0 with
      | Err e => Some (InternalServerError e, textCache)
      | Ok (items, tree) =>
          let pw := mkWriter textCache now activeAfter [] in
          match writeTrees fuel pw items tree with
          | Some pw' => Some (OKLines (lines pw'), Writer.textCache pw')
          | None => None
          end
      end
  end end end.

End Writer.

(** The replies below [item] go at most [n] levels deep, [item] counted. *)
Fixpoint fits (n : nat) (allByParent : gmap Z hn.ItemSet) (item : hn.Item) : Prop :=
  match n with
  | O => False
  | S n' => Forall (fits n' allByParent) (childrenOf allByParent (hn.ID item))
  end.

End Writer.

(* ===================================================================== *)
(** ** frontPageAgeExtractor *)
(* ===================================================================== *)

Module Extractor.

(** The double quote of the expression. *)
Definition quote : ascii := "034"%char.

Definition not_quote (c : ascii) : bool := negb (Ascii.eqb c quote).
Definition not_lt (c : ascii) : bool := negb (Ascii.eqb c "<").

(** The literal stretches of the expression, written here with ' for
    its double quotes,
    [<span class='age' title='[^']+\s+(\d+)'><a href='item\?id=(\d+)'>([^<]+) ago</a></span>]:
    up to the title, between the title and the id, between the id and
    the phrase, and from [ ago] on. *)
Definition spanOpen : string :=
  ("<span class=" +:+ String quote "age" +:+ String quote " title="
   +:+ String quote "")%string.
Definition hrefOpen : string :=
  (String quote "><a href=" +:+ String quote "item?id=")%string.
Definition hrefClose : string := String quote ">".
Definition ago : string := " ago".
Definition spanClose : string := "</a></span>".

(** [s] without the literal [p] in front of it. *)
Fixpoint strip_prefix (p s : string) : option string :=
  match p, s with
  | EmptyString, _ => Some s
  | String a p', String b s' => if Ascii.eqb a b then strip_prefix p' s' else None
  | String _ _, EmptyString => None
  end.

(** [s] without the literal [suffix] at its end. *)
Fixpoint strip_suffix (suffix s : string) : option string :=
  if String.eqb s suffix then Some EmptyString
  else match s with
       | EmptyString => None
       | String c s' => option_map (String c) (strip_suffix suffix s')
       end.

(** [t] split in front of its last run of digits. *)
Fixpoint split_digits (t : string) : string * string :=
  match t with
  | EmptyString => (EmptyString, EmptyString)
  | String c t' =>
      let '(pre, digits) := split_digits t' in
      match pre with
      | EmptyString =>
          if is_digit c then (EmptyString, String c digits)
          else (String c EmptyString, digits)
      | _ => (String c pre, digits)
      end
  end.

(** [s] split in front of its last byte. *)
Fixpoint unsnoc (s : string) : option (string * ascii) :=
  match s with
  | EmptyString => None
  | String c EmptyString => Some (EmptyString, c)
  | String c s' =>
      match unsnoc s' with
      | Some (init, last) => Some (String c init, last)
      | None => None
      end
  end.

(** A match of the expression at the head of [s]: its three groups and
    what follows the match.  The title runs to the next quote and has to
    end in a blank and a run of digits, with something in front of the
    blank; the id is the whole run of digits after [item?id=]; the phrase
    runs to the next [<] and has to end in [ ago]. *)
Definition match_here (s : string) : option (FrontPage.Match * string) :=
  match strip_prefix spanOpen s with
  | None => None
  | Some s1 =>
      let title := FrontPage.take_while not_quote s1 in
      let s2 := FrontPage.drop_while not_quote s1 in
      let '(pre, g1) := split_digits title in
      match unsnoc pre with
      | None => None
      | Some (x, w) =>
          if negb (FrontPage.is_space w) then None
          else if bool_decide (x = EmptyString) then None
          else if bool_decide (g1 = EmptyString) then None
          else
            match strip_prefix hrefOpen s2 with
            | None => None
            | Some s3 =>
                let g2 := FrontPage.take_while is_digit s3 in
                let s4 := FrontPage.drop_while is_digit s3 in
                if bool_decide (g2 = EmptyString) then None
                else
                  match strip_prefix hrefClose s4 with
                  | None => None
                  | Some s5 =>
                      let u := FrontPage.take_while not_lt s5 in
                      let s6 := FrontPage.drop_while not_lt s5 in
                      match strip_suffix ago u with
                      | None => None
                      | Some g3 =>
                          if bool_decide (g3 = EmptyString) then None
                          else
                            match strip_prefix spanClose s6 with
                            | None => None
                            | Some rest => Some (FrontPage.mkMatch g1 g2 g3, rest)
                            end
                      end
                  end
            end
      end
  end.

(** The leftmost matches, none overlapping another: after a match the
    search goes on behind it, [skip] counting the bytes of the match
    still to pass. *)
Fixpoint scan (skip : nat) (s : string) : list FrontPage.Match :=
  match s with
  | EmptyString => []
  | String c s' =>
      match skip with
      | S k => scan k s'
      | O =>
          match match_here s with
          | Some (m, rest) => m :: scan (String.length s' - String.length rest) s'
          | None => scan 0 s'
          end
      end
  end.

(** [frontPageAgeExtractor.FindAllSubmatch(body, -1)], the groups of each
    match. *)
Definition FindAllSubmatch (body : string) : list FrontPage.Match := scan 0 body.

(** One fragment of the front page, as the site writes it. *)
Definition fragment (title ts id phrase : string) : string :=
  (spanOpen +:+ title +:+ " " +:+ ts +:+ hrefOpen +:+ id +:+ hrefClose
   +:+ phrase +:+ ago +:+ spanClose)%string.

End Extractor.

(* ===================================================================== *)
(** * Theorems *)
(* ===================================================================== *)

(** ** The has-active-child probe of the tree writer *)

Lemma anyActive_true_iff (children : hn.ItemSet) (activeAfter : Go.Time) :
  Tree.anyActive children activeAfter = true <->
  exists c, c ∈ children /\ Tree.isActive c activeAfter = true.
Proof.
  induction children as [|x rest IH]; simpl.
  - split; [discriminate | intros (c & Hc & _); inversion Hc].
  - destruct (Tree.isActive x activeAfter) eqn:Hx.
    + split; [intros _ | reflexivity].
      exists x. split; [apply list_elem_of_here | exact Hx].
    + rewrite IH. split.
      * intros (c & Hc & Hact). exists c. split; [by apply list_elem_of_further | done].
      * intros (c & Hc & Hact). apply elem_of_cons in Hc as [-> | Hc].
        -- congruence.
        -- by exists c.
Qed.



(** An active child is in particular an active descendant: the probe
    never reports activity that is not there. *)
Lemma findActiveChild_sound
    (item : hn.Item) (allByParent : gmap Z hn.ItemSet) (activeAfter : Go.Time) :
  Tree.findActiveChild item allByParent activeAfter = true ->
  exists d, Tree.descendant allByParent item d /\ Tree.isActive d activeAfter = true.
Proof.
  unfold Tree.findActiveChild. rewrite anyActive_true_iff.
  intros (c & Hc & Hact). exists c. split; [by apply Tree.descendant_child | done].
Qed.

(** In the tree writer a story is written with its text whatever its
    activity: [item.Parent == nil] is one of the three ways to
    [showText]. *)
Lemma showText_story
    (item : hn.Item) (allByParent : gmap Z hn.ItemSet) (activeAfter : Go.Time) :
  hn.Parent item = None -> Tree.showText item allByParent activeAfter = true.
Proof.
  intros Hroot. unfold Tree.showText.
  rewrite (bool_decide_eq_true_2 _ Hroot). apply orb_true_r.
Qed.


(** ** 64-bit arithmetic and durations *)

Lemma wrap64_id (z : Z) : minInt64 <= z <= maxInt64 -> wrap64 z = z.
Proof.
  unfold wrap64, minInt64, maxInt64. intros Hz.
  rewrite Z.mod_small by lia. lia.
Qed.

Lemma Time_Sub_exact (t u : Go.Time) :
  minDuration <= t - u <= maxDuration -> Time_Sub t u = t - u.
Proof. unfold Time_Sub. lia. Qed.

Lemma Time_Sub_mono (t t' u : Go.Time) : t <= t' -> Time_Sub t u <= Time_Sub t' u.
Proof. unfold Time_Sub. lia. Qed.

Lemma Time_Sub_lt (t u : Go.Time) (d : Duration) :
  minDuration < d -> (Time_Sub t u < d <-> t - u < d \/ maxDuration < d).
Proof. unfold Time_Sub. lia. Qed.

(** Away from the ends of the int64 range the drift is the plain
    difference between the age by the timestamp and the age by the
    phrase. *)
Lemma drift_exact (now : Go.Time) (ts : Z) (age : Duration) :
  minDuration <= now - Unix ts <= maxDuration ->
  minInt64 <= now - Unix ts - age <= maxInt64 ->
  FrontPage.drift now ts age = now - Unix ts - age.
Proof.
  intros Hsub Hdiff. unfold FrontPage.drift, dsub.
  rewrite Time_Sub_exact by exact Hsub. by apply wrap64_id.
Qed.

(** The two examples of the drift rule, thirty minutes by the timestamp:
    a phrase of two hours keeps the timestamp, and so does a phrase of
    five hours, whose drift is four and a half hours below zero.  A
    timestamp of six hours with a phrase of thirty minutes is replaced. *)
Example drift_two_hours :
  FrontPage.effectiveTime (Unix 1000000) (1000000 - 1800) (2 * Hour) = 1000000 - 1800.
Proof. reflexivity. Qed.

Example drift_five_hours :
  FrontPage.drift (Unix 1000000) (1000000 - 1800) (5 * Hour) = - (270 * Minute) /\
  FrontPage.effectiveTime (Unix 1000000) (1000000 - 1800) (5 * Hour) = 1000000 - 1800.
Proof. split; reflexivity. Qed.

Example drift_resurfaced :
  FrontPage.drift (Unix 1000000) (1000000 - 21600) (30 * Minute) = 330 * Minute /\
  FrontPage.effectiveTime (Unix 1000000) (1000000 - 21600) (30 * Minute) = 1000000 - 1800.
Proof. split; reflexivity. Qed.

(** ** The regular expression of parseAge *)

Lemma append_cons (c : ascii) (a b : string) :
  (String c a +:+ b)%string = String c (a +:+ b).
Proof. reflexivity. Qed.

Lemma append_nil (b : string) : (EmptyString +:+ b)%string = b.
Proof. reflexivity. Qed.

Lemma take_drop (p : ascii -> bool) (s : string) :
  (FrontPage.take_while p s +:+ FrontPage.drop_while p s)%string = s.
Proof.
  induction s as [|c s IH]; simpl; [reflexivity|].
  destruct (p c); [by rewrite append_cons, IH | reflexivity].
Qed.

Lemma take_while_all (p : ascii -> bool) (s : string) :
  FrontPage.all_chars p (FrontPage.take_while p s) = true.
Proof.
  induction s as [|c s IH]; simpl; [reflexivity|].
  destruct (p c) eqn:Hc; simpl; [by rewrite Hc | reflexivity].
Qed.

Lemma take_while_app (p : ascii -> bool) (a b : string) :
  FrontPage.all_chars p a = true ->
  match b with EmptyString => True | String c _ => p c = false end ->
  FrontPage.take_while p (a +:+ b) = a /\ FrontPage.drop_while p (a +:+ b) = b.
Proof.
  intros Ha Hb. induction a as [|c a IH].
  - rewrite append_nil. destruct b as [|c b]; simpl in *; [done|]. by rewrite Hb.
  - simpl in Ha. apply andb_true_iff in Ha as [Hc Ha].
    rewrite append_cons. simpl. rewrite Hc.
    destruct (IH Ha) as [-> ->]. done.
Qed.

Lemma drop_while_stops (p : ascii -> bool) (s : string) :
  match FrontPage.drop_while p s with EmptyString => True | String c _ => p c = false end.
Proof.
  induction s as [|c s IH]; simpl; [exact I|].
  destruct (p c) eqn:Hc; [exact IH | exact Hc].
Qed.

Lemma drop_while_all (p : ascii -> bool) (s : string) :
  FrontPage.all_chars p s = true -> FrontPage.drop_while p s = EmptyString.
Proof.
  induction s as [|c s IH]; simpl; [reflexivity|].
  intros [Hc Hs]%andb_true_iff. rewrite Hc. by apply IH.
Qed.

Lemma drop_while_empty_all (p : ascii -> bool) (s : string) :
  FrontPage.drop_while p s = EmptyString -> FrontPage.all_chars p s = true.
Proof.
  induction s as [|c s IH]; simpl; [reflexivity|].
  destruct (p c); [exact IH | discriminate].
Qed.

Lemma is_unit_chars (w : string) :
  FrontPage.is_unit w = true ->
  FrontPage.all_chars (fun c => negb (FrontPage.is_space c)) w = true /\ w <> EmptyString.
Proof.
  unfold FrontPage.is_unit. intros Hw%bool_decide_eq_true.
  repeat (apply elem_of_cons in Hw as [-> | Hw]; [split; [reflexivity | discriminate]|]).
  inversion Hw.
Qed.

Lemma digit_not_space (c : ascii) : is_digit c = true -> FrontPage.is_space c = false.
Proof.
  unfold is_digit, FrontPage.is_space. cbv zeta.
  set (n := Z.of_N (N_of_ascii c)). intros H. 
  apply andb_true_iff in H as [H1%Z.leb_le H2%Z.leb_le].
  repeat (apply orb_false_iff; split); apply Z.eqb_neq; lia.
Qed.

(** The scanner accepts exactly the language of the expression: blanks,
    a run of digits, at least one blank, one of the six unit words,
    blanks; the groups are the digits and the word. *)
Lemma relativeAgeRegex_spec (s num word : string) :
  FrontPage.relativeAgeRegex s = Some (num, word) <->
  exists lead gap trail,
    s = (lead +:+ num +:+ gap +:+ word +:+ trail)%string /\
    FrontPage.all_chars FrontPage.is_space lead = true /\
    num <> EmptyString /\ FrontPage.all_chars is_digit num = true /\
    gap <> EmptyString /\ FrontPage.all_chars FrontPage.is_space gap = true /\
    FrontPage.is_unit word = true /\
    FrontPage.all_chars FrontPage.is_space trail = true.
Proof.
  split.
  - unfold FrontPage.relativeAgeRegex. cbv zeta.
    set (s1 := FrontPage.drop_while FrontPage.is_space s).
    set (s2 := FrontPage.drop_while is_digit s1).
    set (s3 := FrontPage.drop_while FrontPage.is_space s2).
    set (s4 := FrontPage.drop_while (fun c => negb (FrontPage.is_space c)) s3).
    intros H.
    destruct (bool_decide (FrontPage.take_while is_digit s1 = EmptyString)) eqn:Hnum; [discriminate|].
    destruct (bool_decide (FrontPage.take_while FrontPage.is_space s2 = EmptyString)) eqn:Hgap; [discriminate|].
    destruct (FrontPage.is_unit (FrontPage.take_while (fun c => negb (FrontPage.is_space c)) s3)) eqn:Hunit;
      simpl in H; [|discriminate].
    destruct (bool_decide (FrontPage.drop_while FrontPage.is_space s4 = EmptyString)) eqn:Htrail; [|discriminate].
    injection H as <- <-.
    apply bool_decide_eq_false in Hnum, Hgap. apply bool_decide_eq_true in Htrail.
    exists (FrontPage.take_while FrontPage.is_space s), (FrontPage.take_while FrontPage.is_space s2), s4.
    split; [|repeat split; auto using take_while_all, drop_while_empty_all].
    subst s4. rewrite take_drop. subst s3. rewrite take_drop.
    subst s2. rewrite take_drop. subst s1. by rewrite take_drop.
  - intros (lead & gap & trail & -> & Hlead & Hnum & Hdigits & Hgap & Hspaces & Hunit & Htrail).
    destruct (is_unit_chars _ Hunit) as [Hword Hne].
    assert (Hstop_num : match (num +:+ gap +:+ word +:+ trail)%string with
                        | EmptyString => True | String c _ => FrontPage.is_space c = false end).
    { destruct num as [|c num]; [done|]. rewrite append_cons.
      simpl in Hdigits. apply andb_true_iff in Hdigits as [Hc _].
      by apply digit_not_space. }
    assert (Hstop_gap : match (gap +:+ word +:+ trail)%string with
                        | EmptyString => True | String c _ => is_digit c = false end).
    { destruct gap as [|c gap]; [done|]. rewrite append_cons.
      simpl in Hspaces. apply andb_true_iff in Hspaces as [Hc _].
      destruct (is_digit c) eqn:Hd; [|reflexivity].
      apply digit_not_space in Hd. congruence. }
    assert (Hstop_word : match (word +:+ trail)%string with
                         | EmptyString => True | String c _ => FrontPage.is_space c = false end).
    { destruct word as [|c word]; [done|]. rewrite append_cons.
      simpl in Hword. apply andb_true_iff in Hword as [Hc _].
      by apply negb_true_iff. }
    assert (Hstop_trail : match trail with
                          | EmptyString => True
                          | String c _ => negb (FrontPage.is_space c) = false end).
    { destruct trail as [|c trail]; [done|].
      simpl in Htrail. apply andb_true_iff in Htrail as [Hc _]. by rewrite Hc. }
    unfold FrontPage.relativeAgeRegex. cbv zeta.
    destruct (take_while_app FrontPage.is_space lead _ Hlead Hstop_num) as [_ ->].
    destruct (take_while_app is_digit num _ Hdigits Hstop_gap) as [-> ->].
    destruct (take_while_app FrontPage.is_space gap _ Hspaces Hstop_word) as [-> ->].
    destruct (take_while_app _ word _ Hword Hstop_trail) as [-> ->].
    rewrite (drop_while_all _ _ Htrail), Hunit.
    rewrite !bool_decide_eq_false_2 by done.
    by rewrite bool_decide_eq_true_2.
Qed.

(** [parseAge] fails on a phrase outside the language of the expression
    and on a count that does not fit an [int], and on nothing else: the
    [default] case of its switch is never reached. *)
Lemma parseAge_fails_iff (s : string) :
  is_ok (FrontPage.parseAge s) = false <->
  FrontPage.relativeAgeRegex s = None \/
  exists num word,
    FrontPage.relativeAgeRegex s = Some (num, word) /\ Atoi num = None.
Proof.
  unfold FrontPage.parseAge.
  destruct (FrontPage.relativeAgeRegex s) as [[num word]|] eqn:Hre.
  - assert (Hunit : FrontPage.is_unit word = true).
    { pose proof (proj1 (relativeAgeRegex_spec _ _ _) Hre)
        as (lead & gap & trail & _ & _ & _ & _ & _ & _ & Hu & _).
      exact Hu. }
    destruct (Atoi num) as [n|] eqn:Hn.
    + split.
      * unfold FrontPage.is_unit in Hunit. apply bool_decide_eq_true in Hunit.
        repeat (apply elem_of_cons in Hunit as [-> | Hunit]; [discriminate|]).
        inversion Hunit.
      * intros [Hnone | (num' & word' & [= <- <-] & Hnone)]; congruence.
    + split; [intros _; right; by exists num, word | reflexivity].
  - split; [by left | reflexivity].
Qed.

(** ** The loop over the matches *)



Lemma extract_malformed
    (now : Go.Time) (matches : list FrontPage.Match) (mt : FrontPage.Match) (m0 : gmap Z Z) :
  mt ∈ matches ->
  is_ok (FrontPage.parseAge (FrontPage.m_age mt)) = false ->
  exists e, FrontPage.extract now matches m0 = Err e.
Proof.
  intros Hin Hbad. revert m0.
  induction matches as [|x rest IH]; intros m0; [inversion Hin|].
  simpl.
  destruct (ParseInt (FrontPage.m_ts x)); [|by eexists].
  destruct (Atoi (FrontPage.m_id x)); [|by eexists].
  destruct (FrontPage.parseAge (FrontPage.m_age x)) as [age|e] eqn:Hage; [|by eexists].
  apply elem_of_cons in Hin as [-> | Hin].
  - rewrite Hage in Hbad. discriminate.
  - by apply IH.
Qed.

(** A successful scrape went through the loop: the answer was a 200 with
    a readable body, and the map is the loop's. *)
Lemma fetchFrontPageTimesInner_ok
    (F : string -> list FrontPage.Match) (w w' : FrontPage.World)
    (env : FrontPage.Env) (now : Go.Time) (m : gmap Z Z) :
  FrontPage.fetchFrontPageTimesInner F w env now = (Ok m, w') ->
  exists status body,
    FrontPage.answer env = FrontPage.Status 200 status (Some body) /\
    FrontPage.extract now (F body) ∅ = Ok m /\
    w' = FrontPage.mkWorld
           (Some (FrontPage.mkEntry m (FrontPage.storeClock env)))
           (S (FrontPage.requests w)).
Proof.
  unfold FrontPage.fetchFrontPageTimesInner. intros H.
  destruct (FrontPage.answer env) as [| |code status [body|]]; try discriminate.
  - destruct (code =? 200) eqn:Hcode; simpl in H; [|discriminate].
    apply Z.eqb_eq in Hcode as ->.
    destruct (FrontPage.extract now (F body) ∅) as [m'|e] eqn:Hex; [|discriminate].
    injection H as -> <-. by exists status, body.
  - destruct (code =? 200); simpl in H; discriminate.
Qed.

(** A failed scrape leaves the cache entry as it was. *)
Lemma fetchFrontPageTimesInner_err
    (F : string -> list FrontPage.Match) (w w' : FrontPage.World)
    (env : FrontPage.Env) (now : Go.Time) (e : error) :
  FrontPage.fetchFrontPageTimesInner F w env now = (Err e, w') ->
  FrontPage.fetchCache w' = FrontPage.fetchCache w.
Proof.
  unfold FrontPage.fetchFrontPageTimesInner. intros H.
  destruct (FrontPage.answer env) as [| |code status [body|]].
  - by injection H as _ <-.
  - by injection H as _ <-.
  - destruct (code =? 200); simpl in H; [|by injection H as _ <-].
    destruct (FrontPage.extract now (F body) ∅); [discriminate|].
    by injection H as _ <-.
  - destruct (code =? 200); simpl in H; by injection H as _ <-.
Qed.

(** ** The resolver *)


(** C4: when the phrase of one matched fragment does not parse, the
    scrape ends in an error and stores nothing; the resolver then hands
    out no mapping other than one that was cached before, and the cache
    entry is the one it found. *)
Theorem scrape_fails_closed
    (F : string -> list FrontPage.Match) (w : FrontPage.World)
    (env : FrontPage.Env) (now : Go.Time)
    (code : Z) (status body : string) (mt : FrontPage.Match) :
  FrontPage.answer env = FrontPage.Status code status (Some body) ->
  mt ∈ F body ->
  is_ok (FrontPage.parseAge (FrontPage.m_age mt)) = false ->
  (exists e,
     FrontPage.fetchFrontPageTimesInner F w env now =
     (Err e, FrontPage.mkWorld (FrontPage.fetchCache w) (S (FrontPage.requests w)))) /\
  FrontPage.fetchCache (snd (FrontPage.fetchFrontPageTimes F w env now)) =
  FrontPage.fetchCache w /\
  (forall m, fst (FrontPage.fetchFrontPageTimes F w env now) = Ok m ->
     exists entry,
       FrontPage.fetchCache w = Some entry /\ m = FrontPage.data entry /\
       snd (FrontPage.fetchFrontPageTimes F w env now) = w).
Proof.
  intros Hanswer Hin Hbad.
  assert (Hinner : exists e,
     FrontPage.fetchFrontPageTimesInner F w env now =
     (Err e, FrontPage.mkWorld (FrontPage.fetchCache w) (S (FrontPage.requests w)))).
  { unfold FrontPage.fetchFrontPageTimesInner. rewrite Hanswer.
    destruct (code =? 200); simpl; [|by eexists].
    destruct (extract_malformed now (F body) mt ∅ Hin Hbad) as [e ->].
    by eexists. }
  split; [exact Hinner|].
  destruct Hinner as [e Hinner].
  unfold FrontPage.fetchFrontPageTimes. rewrite Hinner.
  destruct (FrontPage.fetchCache w) as [entry|] eqn:Hcache; simpl.
  - destruct (Time_Sub (FrontPage.clock env) (FrontPage.ts entry) <? Minute); simpl.
    + split; [exact Hcache|]. intros m [= <-]. by exists entry.
    + split; [reflexivity | discriminate].
  - split; [reflexivity | discriminate].
Qed.

(** C8: an entry stored less than a minute before the call is returned
    as it is and no request is sent; a call that fails leaves the cache
    entry untouched, and a call after it, at a clock reading that is not
    earlier, sends a request of its own. *)
Theorem resolver_cache
    (F : string -> list FrontPage.Match) (w : FrontPage.World)
    (env : FrontPage.Env) (now : Go.Time) :
  (forall entry,
     FrontPage.fetchCache w = Some entry ->
     FrontPage.clock env - FrontPage.ts entry < Minute ->
     FrontPage.fetchFrontPageTimes F w env now = (Ok (FrontPage.data entry), w)) /\
  (forall e w',
     FrontPage.fetchFrontPageTimes F w env now = (Err e, w') ->
     FrontPage.fetchCache w' = FrontPage.fetchCache w /\
     forall env' now',
       FrontPage.clock env <= FrontPage.clock env' ->
       FrontPage.answer env' <> FrontPage.RequestNotCreated ->
       FrontPage.requests (snd (FrontPage.fetchFrontPageTimes F w' env' now')) =
       S (FrontPage.requests w')).
Proof.
  split.
  - intros entry Hcache Hfresh. unfold FrontPage.fetchFrontPageTimes.
    rewrite Hcache.
    assert (Hlt : (Time_Sub (FrontPage.clock env) (FrontPage.ts entry) <? Minute) = true).
    { apply Z.ltb_lt. apply Time_Sub_lt; [reflexivity | by left]. }
    by rewrite Hlt.
  - intros e w' Hfail.
    assert (Hstale :
      match FrontPage.fetchCache w with
      | Some entry =>
          (Time_Sub (FrontPage.clock env) (FrontPage.ts entry) <? Minute) = false
      | None => True
      end /\ FrontPage.fetchCache w' = FrontPage.fetchCache w).
    { unfold FrontPage.fetchFrontPageTimes in Hfail.
      destruct (FrontPage.fetchCache w) as [entry|] eqn:Hcache.
      - destruct (Time_Sub (FrontPage.clock env) (FrontPage.ts entry) <? Minute);
          [discriminate|].
        split; [reflexivity|].
        destruct (FrontPage.fetchFrontPageTimesInner F w env now) as [[m|e0] w0] eqn:Hin;
          [discriminate|].
        injection Hfail as _ <-.
        rewrite (fetchFrontPageTimesInner_err _ _ _ _ _ _ Hin). exact Hcache.
      - split; [exact I|].
        destruct (FrontPage.fetchFrontPageTimesInner F w env now) as [[m|e0] w0] eqn:Hin;
          [discriminate|].
        injection Hfail as _ <-.
        rewrite (fetchFrontPageTimesInner_err _ _ _ _ _ _ Hin). exact Hcache. }
    destruct Hstale as [Hstale Hsame]. split; [exact Hsame|].
    intros env' now' Hclock Hsent.
    assert (Hnext :
      FrontPage.fetchFrontPageTimes F w' env' now' =
      match FrontPage.fetchFrontPageTimesInner F w' env' now' with
      | (Err e1, w1) => (Err (errSingleflight e1), w1)
      | (Ok times, w1) => (Ok times, w1)
      end).
    { unfold FrontPage.fetchFrontPageTimes. rewrite Hsame.
      destruct (FrontPage.fetchCache w) as [entry|]; [|reflexivity].
      apply Z.ltb_ge in Hstale.
      pose proof (Time_Sub_mono _ _ (FrontPage.ts entry) Hclock) as Hmono.
      assert (Hlt : (Time_Sub (FrontPage.clock env') (FrontPage.ts entry) <? Minute) = false)
        by (apply Z.ltb_ge; lia).
      by rewrite Hlt. }
    rewrite Hnext. unfold FrontPage.fetchFrontPageTimesInner.
    destruct (FrontPage.answer env') as [| |code status [body|]]; simpl;
      [congruence | reflexivity | | ].
    + destruct (code =? 200); simpl; [|reflexivity].
      destruct (FrontPage.extract now' (F body) ∅); reflexivity.
    + destruct (code =? 200); reflexivity.
Qed.


(** The damaged page: the scrape fails and the cache stays empty. *)
Lemma scrape_fails_closed_witness :
  (exists e,
     FrontPage.fetchFrontPageTimesInner
       Sample.extractor Sample.empty (Sample.page "damaged page") Sample.now =
     (Err e, FrontPage.mkWorld None 1)) /\
  FrontPage.fetchCache
    (snd (FrontPage.fetchFrontPageTimes
            Sample.extractor Sample.empty (Sample.page "damaged page") Sample.now)) =
  None.
Proof.
  destruct (scrape_fails_closed
              Sample.extractor Sample.empty (Sample.page "damaged page") Sample.now
              200 "200 OK" "damaged page"
              (FrontPage.mkMatch "913600" "9" "a moment")
              eq_refl
              ltac:(vm_compute; apply list_elem_of_further, list_elem_of_here)
              eq_refl) as (Hinner & Hcache & _).
  split; [exact Hinner | exact Hcache].
Defined.

(** A call half a minute after the entry was stored returns the entry
    and sends nothing; a failed call on the empty cache is followed by a
    call that sends a request. *)
Lemma resolver_cache_witness :
  FrontPage.fetchFrontPageTimes
    Sample.extractor Sample.cached
    (FrontPage.mkEnv (Sample.now + 31 * Second) FrontPage.RequestFailed 0)
    (Sample.now + 31 * Second) =
  (Ok Sample.times, Sample.cached) /\
  FrontPage.requests
    (snd (FrontPage.fetchFrontPageTimes
            Sample.extractor (FrontPage.mkWorld None 1)
            (Sample.page "front page") Sample.now)) = 2%nat.
Proof.
  split.
  - exact (proj1 (resolver_cache
             Sample.extractor Sample.cached
             (FrontPage.mkEnv (Sample.now + 31 * Second) FrontPage.RequestFailed 0)
             (Sample.now + 31 * Second))
           (FrontPage.mkEntry Sample.times (Sample.now + Second))
           eq_refl ltac:(vm_compute; reflexivity)).
  - exact (proj2 (proj2 (resolver_cache
             Sample.extractor Sample.empty (Sample.page "damaged page") Sample.now)
             (errSingleflight (errUnexpectedAgeFormat "a moment"))
             (FrontPage.mkWorld None 1)
             ltac:(vm_compute; reflexivity))
           (Sample.page "front page") Sample.now
           ltac:(vm_compute; discriminate) ltac:(discriminate)).
Defined.

(** ** sort.Slice *)

Section SortSlice.
Context {A : Type} (less : A -> A -> bool).
Hypothesis less_asym : forall a b, less a b = true -> less b a = false.
Hypothesis less_trans :
  forall a b c, less b a = false -> less c b = false -> less c a = false.

Lemma sort_insert_perm (x : A) (l : list A) : sort_insert less x l ≡ₚ x :: l.
Proof.
  induction l as [|y l IH]; simpl; [reflexivity|].
  destruct (less y x); [|reflexivity].
  rewrite IH. apply Permutation_swap.
Qed.

Lemma sort_Slice_perm (l : list A) : sort_Slice less l ≡ₚ l.
Proof.
  induction l as [|x l IH]; simpl; [reflexivity|].
  unfold sort_Slice in *. simpl. rewrite sort_insert_perm. by rewrite IH.
Qed.


End SortSlice.


(** ** Root selection of the scraping revision *)





(** Whatever order [sort.Slice] picks, two roots of one effective time
    with ids 100 and 200 can only come out as 200 before 100. *)
Lemma tie_order_100_200 (i100 i200 : hn.Item) (t : Z) (roots : list handleActiveRoot) :
  hn.ID i100 = 100 -> hn.ID i200 = 200 ->
  roots ≡ₚ [mkRoot i100 t; mkRoot i200 t] ->
  StronglySorted
    (fun a b =>
       root_Time b < root_Time a \/
       (root_Time a = root_Time b /\ hn.ID (root_Item b) <= hn.ID (root_Item a)))
    roots ->
  roots = [mkRoot i200 t; mkRoot i100 t].
Proof.
  intros H100 H200 Hperm Hsorted. symmetry in Hperm.
  apply Permutation_length_2_inv in Hperm as [-> | ->]; [|reflexivity].
  inversion Hsorted as [|? ? _ Hall]; subst.
  inversion Hall as [|? ? Hab _]; subst. simpl in Hab. lia.
Qed.


(** ** Root selection of the current main.go *)


Section MainFacts.
Context (L : Library).


(** ** A resolver that fails *)


End MainFacts.



(** ** The rendering loops *)

Section RenderFacts.
Context (L : Library).

Lemma renderItem_fields
    (user : Z) (now : Go.Time) (root : handleActiveRoot) (activeMap : gmap Z Z)
    (item : FlatItem) (textCache : MapCache L) :
  let r := fst (Main.renderItem L user now root activeMap item textCache) in
  let ae := default 0 (activeMap !! hn.ID (Item item)) in
  handleActiveResponseItem.By r =
    (if user =? 1 then hn.By (Item item) else EmptyString) /\
  handleActiveResponseItem.ID r = hn.ID (Item item) /\
  handleActiveResponseItem.Active r = (0 <? Z.land ae (ActiveMapSelf L)) /\
  handleActiveResponseItem.Text r =
    (if ae =? 0 then EmptyString else fst (Main.formatText L (Item item) textCache)).
Proof.
  unfold Main.renderItem. simpl.
  destruct (default 0 (activeMap !! hn.ID (Item item)) =? 0); simpl.
  - destruct (user =? 1); simpl; auto.
  - destruct (Main.formatText L (Item item) textCache) as [text c1]; simpl.
    destruct (user =? 1); simpl; auto.
Qed.

Lemma renderFlat_cons
    (user : Z) (now : Go.Time) (root : handleActiveRoot) (activeMap : gmap Z Z)
    (item : FlatItem) (rest : list FlatItem) (textCache : MapCache L) :
  Main.renderFlat L user now root activeMap (item :: rest) textCache =
  (fst (Main.renderItem L user now root activeMap item textCache)
   :: fst (Main.renderFlat L user now root activeMap rest
             (snd (Main.renderItem L user now root activeMap item textCache))),
   snd (Main.renderFlat L user now root activeMap rest
          (snd (Main.renderItem L user now root activeMap item textCache)))).
Proof.
  simpl.
  destruct (Main.renderItem L user now root activeMap item textCache) as [r c1].
  simpl. by destruct (Main.renderFlat L user now root activeMap rest c1).
Qed.






End RenderFacts.


(** ** The entry of the root *)

Section RootFacts.
Context (L : Library).

Lemma renderFlat_lookup
    (user : Z) (now : Go.Time) (root : handleActiveRoot) (activeMap : gmap Z Z)
    (flat : list FlatItem) (textCache : MapCache L) (i : nat) (f : FlatItem) :
  flat !! i = Some f ->
  fst (Main.renderFlat L user now root activeMap flat textCache) !! i =
  Some (fst (Main.renderItem L user now root activeMap f
               (snd (Main.renderFlat L user now root activeMap (take i flat)
                       textCache)))).
Proof.
  revert i textCache. induction flat as [|item rest IH]; intros i textCache Hi;
    [discriminate|].
  rewrite renderFlat_cons. destruct i as [|i]; simpl in Hi.
  - injection Hi as ->. reflexivity.
  - cbn [take]. rewrite renderFlat_cons. cbn [fst snd lookup list_lookup].
    by apply IH.
Qed.

(** C3, as the code has it: the entry of the root in [flat] is rendered
    with the text [formatText] gives for it, whatever mark
    [BuildActiveMap] computed; the assignment replaces that mark by
    [ActiveMapChild], so the entry reports [Active] false, also for a
    root created inside the activity window. *)
Theorem root_always_rendered
    (user : Z) (now activeAfter : Go.Time) (root : handleActiveRoot)
    (tree : gmap Z hn.ItemSet) (textCache : MapCache L) (i : nat) (f : FlatItem) :
  ActiveMapChild L <> 0 ->
  Z.land (ActiveMapChild L) (ActiveMapSelf L) = 0 ->
  Main.flatOf L root tree !! i = Some f ->
  hn.ID (Item f) = hn.ID (root_Item root) ->
  exists r,
    fst (Main.renderFlat L user now root
           (Main.activeMapOf L root (Main.flatOf L root tree) activeAfter)
           (Main.flatOf L root tree) textCache) !! i = Some r /\
    handleActiveResponseItem.ID r = hn.ID (root_Item root) /\
    handleActiveResponseItem.Text r =
      fst (Main.formatText L (Item f)
             (snd (Main.renderFlat L user now root
                     (Main.activeMapOf L root (Main.flatOf L root tree) activeAfter)
                     (take i (Main.flatOf L root tree)) textCache))) /\
    handleActiveResponseItem.Active r = false.
Proof.
  intros Hchild Hbits Hi Hid.
  eexists. split; [by apply renderFlat_lookup|].
  match goal with
  | |- context [Main.renderItem L user now root ?am f ?c] =>
      pose proof (renderItem_fields L user now root am f c) as Hfields
  end.
  cbv zeta in Hfields. destruct Hfields as (_ & HID & Hactive & Htext).
  assert (Hae :
    default 0 (Main.activeMapOf L root (Main.flatOf L root tree) activeAfter
               !! hn.ID (Item f)) = ActiveMapChild L).
  { unfold Main.activeMapOf. rewrite Hid. by rewrite lookup_insert_eq. }
  rewrite Hae in Hactive, Htext.
  split; [by rewrite HID|]. split.
  - rewrite Htext. apply Z.eqb_neq in Hchild. by rewrite Hchild.
  - by rewrite Hactive, Hbits.
Qed.

End RootFacts.

(** The story of the sample thread, a minute old with a window of one
    hour: it is rendered with its title and reported as not active. *)
Lemma root_always_rendered_witness :
  exists r,
    fst (Main.renderFlat
           (unl.library (Ok ∅) (Ok ([unl.story], unl.thread)))
           1 Sample.now (mkRoot unl.story 999940)
           (Main.activeMapOf (unl.library (Ok ∅) (Ok ([unl.story], unl.thread)))
              (mkRoot unl.story 999940)
              (Main.flatOf (unl.library (Ok ∅) (Ok ([unl.story], unl.thread)))
                 (mkRoot unl.story 999940) unl.thread)
              (Sample.now - Hour))
           (Main.flatOf (unl.library (Ok ∅) (Ok ([unl.story], unl.thread)))
              (mkRoot unl.story 999940) unl.thread)
           tt) !! 0%nat = Some r /\
    handleActiveResponseItem.Text r = "Show"%string /\
    handleActiveResponseItem.Active r = false.
Proof.
  destruct (root_always_rendered
              (unl.library (Ok ∅) (Ok ([unl.story], unl.thread)))
              1 Sample.now (Sample.now - Hour) (mkRoot unl.story 999940)
              unl.thread tt 0%nat (mkFlat unl.story 0)
              ltac:(discriminate) eq_refl eq_refl eq_refl)
    as (r & Hr & _ & Htext & Hactive).
  exists r. split; [exact Hr|]. split; [exact Htext | exact Hactive].
Defined.

(** C3 fails as stated: the story of the sample thread was created a
    minute before the request, inside the window of one hour, and its
    entry in the reply to /active has [Active] false. *)
Lemma root_mark_erased :
  ~ (forall r textCache' item,
       Tree.isActive unl.story (Time_Add Sample.now (dneg Hour)) = true ->
       Main.handleActive
         (unl.library (Ok ∅) (Ok ([unl.story], unl.thread)))
         ∅ Sample.now Sample.now tt = (Main.OKActive r, textCache') ->
       item ∈ handleActiveResponse.Items r ->
       handleActiveResponseItem.ID item = hn.ID unl.story ->
       handleActiveResponseItem.Active item = true).
Proof.
  intros Hclaim.
  destruct (Main.handleActive
              (unl.library (Ok ∅) (Ok ([unl.story], unl.thread)))
              ∅ Sample.now Sample.now tt) as [reply textCache'] eqn:Hrun.
  vm_compute in Hrun. injection Hrun as <- <-.
  specialize (Hclaim _ tt _ eq_refl eq_refl (list_elem_of_here _ _) eq_refl).
  discriminate Hclaim.
Qed.

(** ** The models at work *)

Example parseAge_hours : FrontPage.parseAge "2 hours" = Ok (2 * Hour).
Proof. reflexivity. Qed.

Example parseAge_spaces : FrontPage.parseAge " 5  minutes " = Ok (5 * Minute).
Proof. reflexivity. Qed.

Example parseAge_day : FrontPage.parseAge "1 day" = Ok (24 * Hour).
Proof. reflexivity. Qed.

Example parseAge_week :
  FrontPage.parseAge "1 week" = Err (errUnexpectedAgeFormat "1 week").
Proof. reflexivity. Qed.

Example parseAge_no_gap :
  FrontPage.parseAge "3hours" = Err (errUnexpectedAgeFormat "3hours").
Proof. reflexivity. Qed.

Example parseAge_out_of_range :
  FrontPage.parseAge "99999999999999999999 days" = Err errParseAge.
Proof. reflexivity. Qed.

Example Atoi_bounds :
  Atoi "9223372036854775807" = Some maxInt64 /\
  Atoi "9223372036854775808" = None /\
  Atoi "-9223372036854775808" = Some minInt64 /\
  Atoi "" = None /\ Atoi "12a" = None.
Proof. repeat split; reflexivity. Qed.

(** The scraping revision takes a front-page time only when it is later
    than the item's own: story 200, on the front page with an earlier
    time, keeps its creation time there, where the current [main.go]
    takes the front-page time and drops the story. *)
Example scraping_keeps_own_time :
  Scraping.keepRoots {[ 200 := 900000 ]} (Unix 913600) [Sample.story200] =
  [mkRoot Sample.story200 999000] /\
  Main.keepRoots {[ 200 := 900000 ]} (Unix 913600) [Sample.story200] = [].
Proof. split; reflexivity. Qed.

(** The current [getActiveRoots] does not sort: the roots keep the order
    in which [unl.GetActive] lists the items. *)
Example main_roots_keep_order :
  fst (Main.getActiveRoots
         (unl.library (Ok ∅) (Ok ([Sample.story100; Sample.story200], ∅)))
         Sample.now Sample.now (Sample.now - Hour) (24 * Hour) 3) =
  Ok ([mkRoot Sample.story100 999000; mkRoot Sample.story200 999000], ∅).
Proof. vm_compute. reflexivity. Qed.

(* ===================================================================== *)
(** * Further properties of the code *)
(* ===================================================================== *)

(** ** parseAge: what a phrase is worth *)

Lemma wrap64_range (z : Z) : minInt64 <= wrap64 z <= maxInt64.
Proof.
  unfold wrap64, minInt64, maxInt64.
  pose proof (Z.mod_pos_bound (z + 2 ^ 63) (2 ^ 64) ltac:(lia)). lia.
Qed.

Lemma wrap64_mul_l (a b : Z) : wrap64 (wrap64 a * b) = wrap64 (a * b).
Proof.
  unfold wrap64. f_equal.
  rewrite (Z.mod_eq (a + 2 ^ 63) (2 ^ 64)) by lia.
  replace ((a + 2 ^ 63 - 2 ^ 64 * ((a + 2 ^ 63) / 2 ^ 64) - 2 ^ 63) * b + 2 ^ 63)
     with (a * b + 2 ^ 63 + (- ((a + 2 ^ 63) / 2 ^ 64) * b) * 2 ^ 64) by ring.
  apply Z_mod_plus_full.
Qed.

Lemma digits_val_ge (s : string) (acc : Z) (v : Z) :
  0 <= acc -> digits_val acc s = Some v -> 0 <= v.
Proof.
  revert acc. induction s as [|c s IH]; intros acc Hacc H; simpl in H.
  - by injection H as <-.
  - destruct (is_digit c) eqn:Hc; [|discriminate].
    apply IH in H; [exact H|].
    unfold is_digit in Hc. cbv zeta in Hc.
    apply andb_true_iff in Hc as [Hlo%Z.leb_le _]. unfold digit_val. lia.
Qed.

(** A count the expression lets through has no sign. *)
Lemma Atoi_digits_ge (num : string) (n : Z) :
  FrontPage.all_chars is_digit num = true -> Atoi num = Some n -> 0 <= n.
Proof.
  intros Hdigits Hn. unfold Atoi, ParseInt in Hn.
  assert (Hplain :
    match num with
    | String "+" s' => option_map (fun v => v) (parse_digits s')
    | String "-" s' => option_map Z.opp (parse_digits s')
    | _ => parse_digits num
    end = parse_digits num).
  { destruct num as [|c num]; [reflexivity|].
    simpl in Hdigits. apply andb_true_iff in Hdigits as [Hc _].
    destruct c as [[] [] [] [] [] [] [] []]; try reflexivity; discriminate Hc. }
  rewrite Hplain in Hn.
  destruct (parse_digits num) as [v|] eqn:Hv; [|discriminate].
  destruct (in_int64 v); [|discriminate]. injection Hn as <-.
  unfold parse_digits in Hv. destruct num; [discriminate|].
  by apply (digits_val_ge _ 0 v) in Hv.
Qed.

(** X1: a phrase the expression accepts is worth its count times the
    unit of its word, singular and plural alike, in 64-bit arithmetic;
    the count is never negative, and the product is exact when it fits an
    int64. *)
Theorem parseAge_value (s num word : string) (n : Z) :
  FrontPage.relativeAgeRegex s = Some (num, word) ->
  Atoi num = Some n ->
  exists unit,
    ((word = "minute" \/ word = "minutes")%string /\ unit = Minute \/
     (word = "hour" \/ word = "hours")%string /\ unit = Hour \/
     (word = "day" \/ word = "days")%string /\ unit = 24 * Hour) /\
    FrontPage.parseAge s = Ok (wrap64 (n * unit)) /\
    0 <= n /\
    (n * unit <= maxInt64 -> FrontPage.parseAge s = Ok (n * unit)).
Proof.
  intros Hre Hn.
  pose proof (proj1 (relativeAgeRegex_spec _ _ _) Hre)
    as (lead & gap & trail & _ & _ & _ & Hdigits & _ & _ & Hunit & _).
  pose proof (Atoi_digits_ge _ _ Hdigits Hn) as Hpos.
  unfold FrontPage.parseAge. rewrite Hre, Hn.
  unfold FrontPage.is_unit in Hunit. apply bool_decide_eq_true in Hunit.
  assert (Hexact : forall unit, 0 < unit ->
            n * unit <= maxInt64 -> wrap64 (n * unit) = n * unit).
  { intros unit Hu Hfit. apply wrap64_id. unfold minInt64. nia. }
  repeat (apply elem_of_cons in Hunit as [-> | Hunit];
    [ first
        [ exists Minute; split; [tauto|]; simpl; unfold dmul;
          split; [reflexivity|]; split; [exact Hpos|];
          intros Hfit; by rewrite Hexact
        | exists Hour; split; [tauto|]; simpl; unfold dmul;
          split; [reflexivity|]; split; [exact Hpos|];
          intros Hfit; by rewrite Hexact
        | exists (24 * Hour); split; [tauto|]; simpl; unfold dmul;
          rewrite wrap64_mul_l;
          replace (n * 24 * Hour) with (n * (24 * Hour)) by ring;
          split; [reflexivity|]; split; [exact Hpos|];
          intros Hfit; by rewrite Hexact ] |]).
  inversion Hunit.
Qed.

Lemma parseAge_value_witness :
  FrontPage.parseAge "  3   days " = Ok (3 * (24 * Hour)).
Proof.
  destruct (parseAge_value "  3   days " "3" "days" 3 eq_refl eq_refl)
    as (unit & [(Hword & _) | [(Hword & _) | (_ & ->)]] & _ & _ & Hexact).
  - destruct Hword; discriminate.
  - destruct Hword; discriminate.
  - apply Hexact. vm_compute. discriminate.
Defined.

(** X2: blanks do not count: a phrase the expression accepts parses as
    its count, one space and its word do. *)
Theorem parseAge_blanks (s num word : string) :
  FrontPage.relativeAgeRegex s = Some (num, word) ->
  FrontPage.parseAge s = FrontPage.parseAge (num +:+ " " +:+ word).
Proof.
  intros Hre.
  pose proof (proj1 (relativeAgeRegex_spec _ _ _) Hre)
    as (lead & gap & trail & _ & _ & Hnum & Hdigits & _ & _ & Hunit & _).
  assert (Hre' : FrontPage.relativeAgeRegex (num +:+ " " +:+ word) = Some (num, word)).
  { apply relativeAgeRegex_spec. exists EmptyString, " "%string, EmptyString.
    repeat split; try done.
    rewrite append_nil. f_equal. f_equal.
    clear. induction word as [|c w IH]; [reflexivity|].
    rewrite append_cons. by rewrite <- IH. }
  unfold FrontPage.parseAge. by rewrite Hre, Hre'.
Qed.

Lemma parseAge_blanks_witness :
  FrontPage.parseAge "  3   days " = FrontPage.parseAge "3 days".
Proof. exact (parseAge_blanks "  3   days " "3" "days" eq_refl). Defined.

(** ** The scrape: which pages succeed and what the mapping holds *)

Lemma extract_ok_iff (now : Go.Time) (matches : list FrontPage.Match) (m0 : gmap Z Z) :
  is_ok (FrontPage.extract now matches m0) = true <->
  Forall (fun mt =>
            is_Some (ParseInt (FrontPage.m_ts mt)) /\
            is_Some (Atoi (FrontPage.m_id mt)) /\
            is_ok (FrontPage.parseAge (FrontPage.m_age mt)) = true)
         matches.
Proof.
  revert m0. induction matches as [|mt rest IH]; intros m0; simpl.
  - split; [constructor | reflexivity].
  - rewrite Forall_cons.
    destruct (ParseInt (FrontPage.m_ts mt)) as [ts|];
      [|split; [discriminate | intros [[[? [=]] _] _]]].
    destruct (Atoi (FrontPage.m_id mt)) as [id|];
      [|split; [discriminate | intros [[_ [[? [=]] _]] _]]].
    destruct (FrontPage.parseAge (FrontPage.m_age mt)) as [age|e];
      [|split; [discriminate | intros [[_ [_ [=]]] _]]].
    rewrite IH. split; [intros H; repeat split; eauto | tauto].
Qed.

Lemma extract_keys
    (now : Go.Time) (matches : list FrontPage.Match) (m0 m : gmap Z Z) (id : Z) :
  FrontPage.extract now matches m0 = Ok m ->
  (is_Some (m !! id) <->
   is_Some (m0 !! id) \/
   exists mt, mt ∈ matches /\ Atoi (FrontPage.m_id mt) = Some id).
Proof.
  revert m0. induction matches as [|mt rest IH]; intros m0 H; simpl in H.
  - injection H as <-. split; [by left|].
    intros [Hm | (mt & Hin & _)]; [exact Hm | inversion Hin].
  - destruct (ParseInt (FrontPage.m_ts mt)) as [ts|]; [|discriminate].
    destruct (Atoi (FrontPage.m_id mt)) as [id'|] eqn:Hid; [|discriminate].
    destruct (FrontPage.parseAge (FrontPage.m_age mt)) as [age|]; [|discriminate].
    rewrite (IH _ H). rewrite lookup_insert_is_Some. split.
    + intros [[-> | [_ Hm]] | (mt' & Hin & Hmt')].
      * right. exists mt. split; [apply list_elem_of_here | exact Hid].
      * by left.
      * right. exists mt'. split; [by apply list_elem_of_further | exact Hmt'].
    + intros [Hm | (mt' & Hin & Hmt')].
      * destruct (decide (id' = id)); [left; by left | left; right; done].
      * apply elem_of_cons in Hin as [-> | Hin].
        -- left. left. congruence.
        -- right. by exists mt'.
Qed.

(** X3: a page that answers 200 with a readable body scrapes well
    exactly when every matched fragment parses: its timestamp and its id
    as integers, its phrase as an age. *)
Theorem scrape_succeeds_iff
    (F : string -> list FrontPage.Match) (w : FrontPage.World)
    (env : FrontPage.Env) (now : Go.Time) (status body : string) :
  FrontPage.answer env = FrontPage.Status 200 status (Some body) ->
  (is_ok (fst (FrontPage.fetchFrontPageTimesInner F w env now)) = true <->
   Forall (fun mt =>
             is_Some (ParseInt (FrontPage.m_ts mt)) /\
             is_Some (Atoi (FrontPage.m_id mt)) /\
             is_ok (FrontPage.parseAge (FrontPage.m_age mt)) = true)
          (F body)).
Proof.
  intros Hanswer. rewrite <- (extract_ok_iff now (F body) ∅).
  unfold FrontPage.fetchFrontPageTimesInner. rewrite Hanswer. simpl.
  by destruct (FrontPage.extract now (F body) ∅).
Qed.

Lemma scrape_succeeds_iff_witness :
  is_ok (fst (FrontPage.fetchFrontPageTimesInner
                Sample.extractor Sample.empty (Sample.page "front page")
                Sample.now)) = true.
Proof.
  apply (scrape_succeeds_iff
           Sample.extractor Sample.empty (Sample.page "front page") Sample.now
           "200 OK" "front page" eq_refl).
  repeat constructor; by eexists.
Defined.

(** X4: the mapping of a successful scrape has an entry for an id
    exactly when a matched fragment carries that id; a page without
    fragments gives the empty mapping. *)
Theorem scrape_keys
    (F : string -> list FrontPage.Match) (w w' : FrontPage.World)
    (env : FrontPage.Env) (now : Go.Time) (m : gmap Z Z)
    (code : Z) (status body : string) :
  FrontPage.answer env = FrontPage.Status code status (Some body) ->
  FrontPage.fetchFrontPageTimesInner F w env now = (Ok m, w') ->
  (forall id,
     is_Some (m !! id) <->
     exists mt, mt ∈ F body /\ Atoi (FrontPage.m_id mt) = Some id) /\
  (F body = [] -> m = ∅).
Proof.
  intros Hanswer Hfetch.
  apply fetchFrontPageTimesInner_ok in Hfetch as (status' & body' & Hanswer' & Hex & _).
  rewrite Hanswer in Hanswer'. injection Hanswer' as _ _ <-. split.
  - intros id. rewrite (extract_keys _ _ _ _ id Hex).
    rewrite lookup_empty. split; [intros [[? [=]] | H]; exact H | by right].
  - intros Hnone. rewrite Hnone in Hex. simpl in Hex. congruence.
Qed.

Lemma scrape_keys_witness :
  is_Some (Sample.times !! 9) /\ ~ is_Some (Sample.times !! 10).
Proof.
  pose proof (scrape_keys
                Sample.extractor Sample.empty Sample.cached
                (Sample.page "front page") Sample.now Sample.times
                200 "200 OK" "front page" eq_refl
                ltac:(vm_compute; reflexivity)) as [Hkeys _].
  split.
  - apply Hkeys. exists (FrontPage.mkMatch "913600" "9" "3 hours").
    split; [|reflexivity].
    vm_compute. apply list_elem_of_further, list_elem_of_here.
  - intros Hin. apply Hkeys in Hin as (mt & Hin & Hid).
    vm_compute in Hin.
    repeat (apply elem_of_cons in Hin as [-> | Hin]; [discriminate Hid|]).
    inversion Hin.
Defined.

(** X5: away from the ends of the int64 range the drift rule only ever
    moves a time forward: the effective time is the timestamp itself or
    at least two hours after it. *)
Theorem effectiveTime_forward (now : Go.Time) (ts : Z) (age : Duration) :
  minDuration <= now - Unix ts <= maxDuration ->
  minInt64 <= now - Unix ts - age <= maxInt64 ->
  minInt64 < age <= maxInt64 ->
  FrontPage.effectiveTime now ts age = ts \/
  ts + 7200 <= FrontPage.effectiveTime now ts age.
Proof.
  intros Hsub Hdiff Hage. unfold FrontPage.effectiveTime.
  rewrite drift_exact by assumption.
  destruct (2 * Hour <? now - Unix ts - age) eqn:Hdrift; [right | by left].
  apply Z.ltb_lt in Hdrift.
  unfold Time_Unix, Time_Add, dneg. rewrite wrap64_id by (unfold minInt64, maxInt64 in *; lia).
  apply Z.div_le_lower_bound; [reflexivity|].
  unfold Unix, Hour, Minute, Second in *. lia.
Qed.

Lemma effectiveTime_forward_witness :
  913600 + 7200 <= FrontPage.effectiveTime Sample.now 913600 (3 * Hour).
Proof.
  destruct (effectiveTime_forward Sample.now 913600 (3 * Hour)
              ltac:(vm_compute; split; discriminate)
              ltac:(vm_compute; split; discriminate)
              ltac:(vm_compute; split; [reflexivity | discriminate]))
    as [Hsame | Hlater].
  - vm_compute in Hsame. discriminate Hsame.
  - exact Hlater.
Defined.

(** ** The resolver: a success is served again, an error is wrapped *)

Lemma fetchFrontPageTimes_hit
    (F : string -> list FrontPage.Match) (w : FrontPage.World)
    (env : FrontPage.Env) (now : Go.Time) (entry : FrontPage.fetchCacheEntry) :
  FrontPage.fetchCache w = Some entry ->
  FrontPage.clock env - FrontPage.ts entry < Minute ->
  FrontPage.fetchFrontPageTimes F w env now = (Ok (FrontPage.data entry), w).
Proof.
  intros Hcache Hfresh. unfold FrontPage.fetchFrontPageTimes. rewrite Hcache.
  assert (Hlt : (Time_Sub (FrontPage.clock env) (FrontPage.ts entry) <? Minute) = true).
  { apply Z.ltb_lt. apply Time_Sub_lt; [reflexivity | by left]. }
  by rewrite Hlt.
Qed.

(** X6: after a successful call the cache holds the mapping that was
    returned, and a call less than a minute after the entry's timestamp
    gets the same mapping and sends no request.  A call that was not
    answered from the cache has sent exactly one request and stamped the
    entry with the clock read at the store. *)
Theorem resolver_success_cached
    (F : string -> list FrontPage.Match) (w w' : FrontPage.World)
    (env : FrontPage.Env) (now : Go.Time) (m : gmap Z Z) :
  FrontPage.fetchFrontPageTimes F w env now = (Ok m, w') ->
  (w' = w \/
   w' = FrontPage.mkWorld
          (Some (FrontPage.mkEntry m (FrontPage.storeClock env)))
          (S (FrontPage.requests w))) /\
  exists entry,
    FrontPage.fetchCache w' = Some entry /\
    FrontPage.data entry = m /\
    forall env' now',
      FrontPage.clock env' - FrontPage.ts entry < Minute ->
      FrontPage.fetchFrontPageTimes F w' env' now' = (Ok m, w').
Proof.
  intros Hcall.
  assert (Hstate :
    (w' = w /\ exists entry,
       FrontPage.fetchCache w = Some entry /\ FrontPage.data entry = m) \/
    w' = FrontPage.mkWorld
           (Some (FrontPage.mkEntry m (FrontPage.storeClock env)))
           (S (FrontPage.requests w))).
  { unfold FrontPage.fetchFrontPageTimes in Hcall.
    destruct (FrontPage.fetchCache w) as [entry|] eqn:Hcache.
    - destruct (Time_Sub (FrontPage.clock env) (FrontPage.ts entry) <? Minute).
      + injection Hcall as <- <-. left. split; [reflexivity | by exists entry].
      + destruct (FrontPage.fetchFrontPageTimesInner F w env now)
          as [[times|e] w0] eqn:Hin; [|discriminate].
        injection Hcall as -> ->. right.
        by apply fetchFrontPageTimesInner_ok in Hin as (_ & _ & _ & _ & ->).
    - destruct (FrontPage.fetchFrontPageTimesInner F w env now)
        as [[times|e] w0] eqn:Hin; [|discriminate].
      injection Hcall as -> ->. right.
      by apply fetchFrontPageTimesInner_ok in Hin as (_ & _ & _ & _ & ->). }
  split; [destruct Hstate as [[-> _] | ->]; [by left | by right]|].
  assert (Hentry : exists entry,
            FrontPage.fetchCache w' = Some entry /\ FrontPage.data entry = m).
  { destruct Hstate as [[-> Hentry] | ->]; [exact Hentry | by eexists]. }
  destruct Hentry as (entry & Hcache & Hdata).
  exists entry. split; [exact Hcache|]. split; [exact Hdata|].
  intros env' now' Hfresh. rewrite <- Hdata.
  by apply fetchFrontPageTimes_hit.
Qed.

Lemma resolver_success_cached_witness :
  FrontPage.fetchFrontPageTimes
    Sample.extractor Sample.empty (Sample.page "front page") Sample.now =
  (Ok Sample.times, Sample.cached) /\
  FrontPage.fetchFrontPageTimes
    Sample.extractor Sample.cached
    (FrontPage.mkEnv (Sample.now + 59 * Second) FrontPage.RequestFailed 0)
    (Sample.now + 59 * Second) =
  (Ok Sample.times, Sample.cached).
Proof.
  assert (Hfirst :
    FrontPage.fetchFrontPageTimes
      Sample.extractor Sample.empty (Sample.page "front page") Sample.now =
    (Ok Sample.times, Sample.cached)) by (vm_compute; reflexivity).
  split; [exact Hfirst|].
  destruct (resolver_success_cached _ _ _ _ _ _ Hfirst)
    as (_ & entry & Hcache & _ & Hagain).
  injection Hcache as <-.
  apply Hagain. vm_compute. reflexivity.
Defined.

(** X7: an error of the resolver always wraps the error of the scrape
    it ran, and that error is one the scrape itself makes: the request
    could not be made or sent, the status was not 200, the body could not
    be read, or a fragment did not parse. *)
Theorem resolver_error_wrapped
    (F : string -> list FrontPage.Match) (w w' : FrontPage.World)
    (env : FrontPage.Env) (now : Go.Time) (e : error) :
  FrontPage.fetchFrontPageTimes F w env now = (Err e, w') ->
  exists cause,
    e = errSingleflight cause /\
    FrontPage.fetchFrontPageTimesInner F w env now = (Err cause, w') /\
    (cause = errCreateRequest \/ cause = errExecuteRequest \/
     (exists status, cause = errStatusNotOK status) \/ cause = errReadBody \/
     cause = errParseTime \/ cause = errParseID \/ cause = errParseAge \/
     exists s, cause = errUnexpectedAgeFormat s).
Proof.
  intros Hcall.
  assert (Hinner : exists cause,
            e = errSingleflight cause /\
            FrontPage.fetchFrontPageTimesInner F w env now = (Err cause, w')).
  { unfold FrontPage.fetchFrontPageTimes in Hcall.
    destruct (FrontPage.fetchCache w) as [entry|].
    - destruct (Time_Sub (FrontPage.clock env) (FrontPage.ts entry) <? Minute);
        [discriminate|].
      destruct (FrontPage.fetchFrontPageTimesInner F w env now) as [[m|e0] w0];
        [discriminate|].
      injection Hcall as <- <-. by exists e0.
    - destruct (FrontPage.fetchFrontPageTimesInner F w env now) as [[m|e0] w0];
        [discriminate|].
      injection Hcall as <- <-. by exists e0. }
  destruct Hinner as (cause & -> & Hinner).
  exists cause. split; [reflexivity|]. split; [exact Hinner|].
  assert (Hloop : forall matches m0 e0,
            FrontPage.extract now matches m0 = Err e0 ->
            e0 = errParseTime \/ e0 = errParseID \/ e0 = errParseAge \/
            exists s, e0 = errUnexpectedAgeFormat s).
  { induction matches as [|mt rest IH]; intros m0 e0 H; simpl in H; [discriminate|].
    destruct (ParseInt (FrontPage.m_ts mt)); [|injection H as <-; tauto].
    destruct (Atoi (FrontPage.m_id mt)); [|injection H as <-; tauto].
    destruct (FrontPage.parseAge (FrontPage.m_age mt)) as [age|e1] eqn:Hage;
      [by apply IH in H|].
    injection H as <-. right. right.
    unfold FrontPage.parseAge in Hage.
    destruct (FrontPage.relativeAgeRegex (FrontPage.m_age mt)) as [[m1 m2]|];
      [|injection Hage as <-; right; by eexists].
    destruct (Atoi m1); [|injection Hage as <-; by left].
    repeat (case_bool_decide; [discriminate|]).
    injection Hage as <-. right. by eexists. }
  unfold FrontPage.fetchFrontPageTimesInner in Hinner.
  destruct (FrontPage.answer env) as [| |code status [body|]].
  - injection Hinner as <- _. tauto.
  - injection Hinner as <- _. tauto.
  - destruct (code =? 200); simpl in Hinner;
      [|injection Hinner as <- _; right; right; left; by eexists].
    destruct (FrontPage.extract now (F body) ∅) as [m|e0] eqn:Hex; [discriminate|].
    injection Hinner as <- _. apply Hloop in Hex. tauto.
  - destruct (code =? 200); simpl in Hinner;
      [injection Hinner as <- _; tauto
      |injection Hinner as <- _; right; right; left; by eexists].
Qed.

Lemma resolver_error_wrapped_witness :
  FrontPage.fetchFrontPageTimes
    Sample.extractor Sample.empty (Sample.page "damaged page") Sample.now =
  (Err (errSingleflight (errUnexpectedAgeFormat "a moment")),
   FrontPage.mkWorld None 1) /\
  exists cause,
    errSingleflight (errUnexpectedAgeFormat "a moment") = errSingleflight cause /\
    FrontPage.fetchFrontPageTimesInner
      Sample.extractor Sample.empty (Sample.page "damaged page") Sample.now =
    (Err cause, FrontPage.mkWorld None 1).
Proof.
  assert (Hcall :
    FrontPage.fetchFrontPageTimes
      Sample.extractor Sample.empty (Sample.page "damaged page") Sample.now =
    (Err (errSingleflight (errUnexpectedAgeFormat "a moment")),
     FrontPage.mkWorld None 1)) by (vm_compute; reflexivity).
  split; [exact Hcall|].
  destruct (resolver_error_wrapped _ _ _ _ _ _ Hcall) as (cause & Hwrap & Hinner & _).
  by exists cause.
Defined.

(** ** Root selection of the scraping revision: times and failures *)

Lemma scraping_keepRoots_filter
    (frontPageTimes : gmap Z Z) (agedAfter : Go.Time) (items : list hn.Item) :
  Scraping.keepRoots frontPageTimes agedAfter items =
  map (fun item =>
         mkRoot item
           (Z.max (hn.Time item)
                  (default (hn.Time item) (frontPageTimes !! hn.ID item))))
      (filter
         (fun item =>
            agedAfter <
            Unix (Z.max (hn.Time item)
                        (default (hn.Time item) (frontPageTimes !! hn.ID item))))
         items).
Proof.
  induction items as [|item rest IH]; [reflexivity|].
  simpl. rewrite filter_cons.
  assert (Ht :
    match frontPageTimes !! hn.ID item with
    | Some updated => if hn.Time item <? updated then updated else hn.Time item
    | None => hn.Time item
    end = Z.max (hn.Time item)
                (default (hn.Time item) (frontPageTimes !! hn.ID item))).
  { destruct (frontPageTimes !! hn.ID item) as [updated|]; simpl; [|lia].
    destruct (hn.Time item <? updated) eqn:Hlt;
      [apply Z.ltb_lt in Hlt | apply Z.ltb_ge in Hlt]; lia. }
  rewrite Ht. unfold Time_After.
  match goal with |- context [decide (?a < ?b)] => destruct (decide (a < b)) as [Hlt|Hge] end.
  - apply Z.ltb_lt in Hlt. rewrite Hlt. simpl. by rewrite IH.
  - apply Z.ltb_nlt in Hge. rewrite Hge. exact IH.
Qed.

(** X8: in the scraping revision every root returned belongs to a
    candidate item, its effective time is the later of the item's
    creation time and its front-page time, so never earlier than the
    creation time, and it is strictly after the cutoff. *)
Theorem scraping_root_times
    (F : string -> list FrontPage.Match)
    (GA : Go.Time -> Go.Time -> Z -> Z -> result (list hn.Item * gmap Z hn.ItemSet))
    (w w' : FrontPage.World) (env : FrontPage.Env)
    (clock now activeAfter : Go.Time) (maxAge : Duration) (minBy : Z)
    (roots : list handleActiveRoot) (tree : gmap Z hn.ItemSet)
    (frontPageTimes : gmap Z Z) :
  Scraping.getActiveRoots F GA w env clock now activeAfter maxAge minBy =
    (Ok (roots, tree), w') ->
  frontPageTimes =
    match fst (FrontPage.fetchFrontPageTimes F w env now) with
    | Ok times => times
    | Err _ => ∅
    end ->
  exists items,
    GA activeAfter (Time_Add now (dneg Scraping.oneWeek)) minBy 0 = Ok (items, tree) /\
    forall root, root ∈ roots ->
      root_Item root ∈ items /\
      root_Time root =
        Z.max (hn.Time (root_Item root))
              (default (hn.Time (root_Item root))
                       (frontPageTimes !! hn.ID (root_Item root))) /\
      hn.Time (root_Item root) <= root_Time root /\
      Time_Add clock (dneg maxAge) < Unix (root_Time root).
Proof.
  unfold Scraping.getActiveRoots. intros Hrun ->.
  destruct (GA activeAfter (Time_Add now (dneg Scraping.oneWeek)) minBy 0)
    as [[items tree0]|e]; [|discriminate].
  destruct (FrontPage.fetchFrontPageTimes F w env now) as [fetched w0].
  injection Hrun as <- <- <-. exists items. split; [reflexivity|].
  intros root Hin. simpl.
  rewrite (sort_Slice_perm Scraping.less) in Hin.
  rewrite scraping_keepRoots_filter in Hin.
  apply list_elem_of_fmap in Hin as (item & -> & Hin).
  apply list_elem_of_filter in Hin as [Hlt Hin]. simpl.
  repeat split; [exact Hin | lia | exact Hlt].
Qed.

Lemma scraping_root_times_witness :
  Forall (fun root => hn.Time (root_Item root) <= root_Time root)
         [mkRoot Sample.story200 999000; mkRoot Sample.story100 999000].
Proof.
  destruct (scraping_root_times
              Sample.extractor Sample.active Sample.empty (FrontPage.mkWorld None 1)
              (FrontPage.mkEnv Sample.now FrontPage.RequestFailed Sample.now)
              Sample.now Sample.now (Sample.now - Hour) (24 * Hour) 3
              [mkRoot Sample.story200 999000; mkRoot Sample.story100 999000]
              ∅ ∅ ltac:(vm_compute; reflexivity) eq_refl)
    as (items & _ & Hroots).
  apply Forall_forall. intros root Hin. by apply Hroots.
Defined.

(** X9: the scraping [getActiveRoots] fails exactly when the item client
    does, and then before any request to the front page; a front page
    that fails is passed over in silence, the roots carrying their own
    creation times. *)
Theorem scraping_failures
    (F : string -> list FrontPage.Match)
    (GA : Go.Time -> Go.Time -> Z -> Z -> result (list hn.Item * gmap Z hn.ItemSet))
    (w : FrontPage.World) (env : FrontPage.Env)
    (clock now activeAfter : Go.Time) (maxAge : Duration) (minBy : Z) :
  match GA activeAfter (Time_Add now (dneg Scraping.oneWeek)) minBy 0 with
  | Err e =>
      Scraping.getActiveRoots F GA w env clock now activeAfter maxAge minBy =
      (Err e, w)
  | Ok (items, tree) =>
      exists roots,
        Scraping.getActiveRoots F GA w env clock now activeAfter maxAge minBy =
        (Ok (roots, tree), snd (FrontPage.fetchFrontPageTimes F w env now)) /\
        (is_ok (fst (FrontPage.fetchFrontPageTimes F w env now)) = false ->
         Forall (fun root => root_Time root = hn.Time (root_Item root)) roots)
  end.
Proof.
  unfold Scraping.getActiveRoots.
  destruct (GA activeAfter (Time_Add now (dneg Scraping.oneWeek)) minBy 0)
    as [[items tree]|e]; [|reflexivity].
  destruct (FrontPage.fetchFrontPageTimes F w env now) as [fetched w0].
  eexists. split; [reflexivity|]. simpl. intros Hfailed.
  destruct fetched as [times|e]; [discriminate|].
  apply Forall_forall. intros root Hin.
  rewrite (sort_Slice_perm Scraping.less) in Hin.
  rewrite scraping_keepRoots_filter in Hin.
  apply list_elem_of_fmap in Hin as (item & -> & _). simpl.
  rewrite lookup_empty. simpl. lia.
Qed.

(** ** The current handlers: rejections, shape of the reply, flags *)

Section HandlerFacts.
Context (L : Library).


Lemma renderFlat_shape
    (user : Z) (now : Go.Time) (root : handleActiveRoot) (activeMap : gmap Z Z)
    (flat : list FlatItem) (textCache : MapCache L) :
  map (fun r => (handleActiveResponseItem.ID r, handleActiveResponseItem.Depth r))
      (fst (Main.renderFlat L user now root activeMap flat textCache)) =
  map (fun f => (hn.ID (Item f), Depth f)) flat.
Proof.
  revert textCache. induction flat as [|item rest IH]; intros textCache;
    [reflexivity|].
  rewrite renderFlat_cons. simpl. rewrite IH. f_equal.
  unfold Main.renderItem.
  by destruct (if negb (default 0 (activeMap !! hn.ID (Item item)) =? 0)
               then Main.formatText L (Item item) textCache
               else (EmptyString, textCache)).
Qed.

Lemma renderRoots_shape
    (user : Z) (now activeAfter : Go.Time) (tree : gmap Z hn.ItemSet)
    (roots : list handleActiveRoot) (textCache : MapCache L) :
  map (fun r => (handleActiveResponseItem.ID r, handleActiveResponseItem.Depth r))
      (fst (Main.renderRoots L user now activeAfter tree roots textCache)) =
  map (fun f => (hn.ID (Item f), Depth f))
      (concat (map (fun root => Main.flatOf L root tree) roots)).
Proof.
  revert textCache. induction roots as [|root rest IH]; intros textCache;
    [reflexivity|].
  simpl.
  pose proof (renderFlat_shape user now root
                (Main.activeMapOf L root (Main.flatOf L root tree) activeAfter)
                (Main.flatOf L root tree) textCache) as Hflat.
  destruct (Main.renderFlat L user now root
              (Main.activeMapOf L root (Main.flatOf L root tree) activeAfter)
              (Main.flatOf L root tree) textCache) as [items c1].
  specialize (IH c1).
  destruct (Main.renderRoots L user now activeAfter tree rest c1) as [more c2].
  simpl in *. by rewrite !map_app, Hflat, IH.
Qed.

(** X11: a 200 reply to /active has one entry for every flattened item
    of every root, in the order of the roots and of each flattening, with
    the item's id and depth; its [SecondChanceFailed] flag is set exactly
    when the resolver failed. *)
Theorem handleActive_shape
    (query : gmap string string) (now clock : Go.Time)
    (textCache textCache' : MapCache L) (r : handleActiveResponse.t) :
  Main.handleActive L query now clock textCache = (Main.OKActive r, textCache') ->
  exists window maxAge minBy roots tree,
    fst (Main.getActiveRoots L clock now (Time_Add now (dneg window)) maxAge minBy) =
      Ok (roots, tree) /\
    map (fun e => (handleActiveResponseItem.ID e, handleActiveResponseItem.Depth e))
        (handleActiveResponse.Items r) =
    map (fun f => (hn.ID (Item f), Depth f))
        (concat (map (fun root => Main.flatOf L root tree) roots)) /\
    handleActiveResponse.SecondChanceFailed r =
      negb (is_ok (FetchFrontPageTimes L now)).
Proof.
  unfold Main.handleActive. intros Hrun.
  destruct (ParseDuration L _) as [window|]; [|discriminate].
  destruct (ParseDuration L _) as [maxAge|]; [|discriminate].
  destruct (Atoi (Main.DefaultQuery query "min-by" "3")) as [minBy|];
    [|discriminate].
  destruct (Atoi (Main.DefaultQuery query "user" "1")) as [user|];
    [|discriminate].
  destruct (Main.getActiveRoots L clock now _ maxAge minBy)
    as [[[roots tree]|e] flag] eqn:Hroots; [|discriminate].
  pose proof (renderRoots_shape user now (Time_Add now (dneg window)) tree roots
                textCache) as Hshape.
  destruct (Main.renderRoots L user now _ tree roots textCache) as [items c1].
  injection Hrun as <- _. exists window, maxAge, minBy, roots, tree.
  rewrite Hroots. split; [reflexivity|]. split; [exact Hshape|]. simpl.
  unfold Main.getActiveRoots in Hroots.
  destruct (FetchFrontPageTimes L now) as [times|e];
    destruct (GetActive L _ _ _ minBy 0) as [[items0 tree0]|e0];
    by inversion Hroots.
Qed.


End HandlerFacts.


Lemma handleActive_shape_witness :
  exists r,
    fst (Main.handleActive
           (unl.library (Ok ∅) (Ok ([unl.story], unl.thread)))
           ∅ Sample.now Sample.now tt) = Main.OKActive r /\
    map (fun e => (handleActiveResponseItem.ID e, handleActiveResponseItem.Depth e))
        (handleActiveResponse.Items r) = [(1, 0); (2, 1); (3, 2)] /\
    handleActiveResponse.SecondChanceFailed r = false.
Proof.
  destruct (Main.handleActive
              (unl.library (Ok ∅) (Ok ([unl.story], unl.thread)))
              ∅ Sample.now Sample.now tt) as [reply textCache'] eqn:Hrun.
  assert (Hreply : exists r, reply = Main.OKActive r).
  { vm_compute in Hrun. injection Hrun as <- _. by eexists. }
  destruct Hreply as (r & ->). exists r. split; [reflexivity|].
  destruct (handleActive_shape _ _ _ _ _ _ _ Hrun)
    as (window & maxAge & minBy & roots & tree & Hroots & Hshape & Hflag).
  split; [|exact Hflag].
  vm_compute in Hrun. injection Hrun as <-. reflexivity.
Defined.

Section EntryFacts.
Context (L : Library).

(** X13: in the entries of one root, an item whose mark is absent or 0
    is a bare placeholder, with no text and not active; an entry is
    reported active only for a mark other than 0, and then carries the
    text [formatText] gives for its item. *)
Theorem marks_decide_entries
    (user : Z) (now : Go.Time) (root : handleActiveRoot) (activeMap : gmap Z Z)
    (flat : list FlatItem) (textCache : MapCache L) (i : nat) (f : FlatItem) :
  flat !! i = Some f ->
  exists r,
    fst (Main.renderFlat L user now root activeMap flat textCache) !! i = Some r /\
    (default 0 (activeMap !! hn.ID (Item f)) = 0 ->
     handleActiveResponseItem.Text r = EmptyString /\
     handleActiveResponseItem.Active r = false) /\
    (handleActiveResponseItem.Active r = true ->
     default 0 (activeMap !! hn.ID (Item f)) <> 0 /\
     handleActiveResponseItem.Text r =
       fst (Main.formatText L (Item f)
              (snd (Main.renderFlat L user now root activeMap (take i flat)
                      textCache)))).
Proof.
  intros Hi. eexists. split; [by apply renderFlat_lookup|].
  match goal with
  | |- context [Main.renderItem L user now root activeMap f ?c] =>
      pose proof (renderItem_fields L user now root activeMap f c) as Hfields
  end.
  cbv zeta in Hfields. destruct Hfields as (_ & _ & Hactive & Htext).
  rewrite Hactive, Htext. split.
  - intros ->. split; reflexivity.
  - intros Hland.
    destruct (default 0 (activeMap !! hn.ID (Item f)) =? 0) eqn:Hzero.
    + apply Z.eqb_eq in Hzero. rewrite Hzero in Hland. discriminate.
    + apply Z.eqb_neq in Hzero. by split.
Qed.





End EntryFacts.

Lemma marks_decide_entries_witness :
  exists r,
    fst (Main.renderFlat
           (unl.library (Ok ∅) (Ok ([unl.story], unl.thread)))
           1 Sample.now (mkRoot unl.story 999940) {[ 1 := 2; 3 := 1 ]}
           [mkFlat unl.story 0; mkFlat unl.reply1 1; mkFlat unl.reply2 2] tt)
      !! 1%nat = Some r /\
    handleActiveResponseItem.Text r = EmptyString /\
    handleActiveResponseItem.Active r = false.
Proof.
  destruct (marks_decide_entries
              (unl.library (Ok ∅) (Ok ([unl.story], unl.thread)))
              1 Sample.now (mkRoot unl.story 999940) {[ 1 := 2; 3 := 1 ]}
              [mkFlat unl.story 0; mkFlat unl.reply1 1; mkFlat unl.reply2 2] tt
              1%nat (mkFlat unl.reply1 1) eq_refl)
    as (r & Hr & Hzero & _).
  exists r. split; [exact Hr|]. apply Hzero. reflexivity.
Defined.

(** ** The tree writer *)

Lemma append_assoc (a b c : string) : ((a +:+ b) +:+ c = a +:+ (b +:+ c))%string.
Proof.
  induction a as [|x a IH]; [reflexivity|].
  by rewrite !append_cons, IH.
Qed.

Section WriterFacts.
Context (L : Library) (allByParent : gmap Z hn.ItemSet).

(** What the line of an item says, whatever its indentation. *)
Local Abbreviation lineFor now activeAfter it line :=
  (prettyLine.ID line = hn.ID it /\
   prettyLine.By line = hn.By it /\
   prettyLine.Age line =
     PrettyFormatDuration L (Time_Sub now (Unix (hn.Time it))) /\
   prettyLine.Root line = bool_decide (hn.Parent it = None) /\
   prettyLine.Active line = Tree.isActive it activeAfter /\
   (Tree.showText it allByParent activeAfter = false ->
    prettyLine.Text line = EmptyString)).

(** The bytes an indentation is drawn with. *)
Local Abbreviation bars suffix :=
  (FrontPage.all_chars
     (fun c => Ascii.eqb c "|" || Ascii.eqb c " ") suffix = true).

Lemma writeItemIndent_spec
    (pw : Writer.prettyWriter L) (item : hn.Item) (showText isActive : bool)
    (indent : string) :
  exists text,
    Writer.lines L (Writer.writeItemIndent L pw item showText isActive indent) =
      Writer.lines L pw ++
      [prettyLine.mk (hn.By item)
         (PrettyFormatDuration L (Time_Sub (Writer.now L pw) (Unix (hn.Time item))))
         indent text (hn.ID item) (bool_decide (hn.Parent item = None)) isActive] /\
    Writer.now L (Writer.writeItemIndent L pw item showText isActive indent) =
      Writer.now L pw /\
    Writer.activeAfter L (Writer.writeItemIndent L pw item showText isActive indent) =
      Writer.activeAfter L pw /\
    (showText = false ->
     text = EmptyString /\
     Writer.textCache L (Writer.writeItemIndent L pw item showText isActive indent) =
       Writer.textCache L pw).
Proof.
  unfold Writer.writeItemIndent. destruct showText.
  - destruct (MapCache_Get L (Writer.textCache L pw) item) as [[value|] cache];
      eexists; simpl; (split; [reflexivity|]); repeat split; discriminate.
  - eexists. simpl. by repeat split.
Qed.

Lemma writeChildren_lines
    (recurse : Writer.prettyWriter L -> hn.Item -> string ->
               option (Writer.prettyWriter L))
    (item : hn.Item) (indent : string) :
  (forall pw child childIndent pw',
     recurse pw child childIndent = Some pw' ->
     Writer.now L pw' = Writer.now L pw /\
     Writer.activeAfter L pw' = Writer.activeAfter L pw /\
     exists first rest,
       Writer.lines L pw' = Writer.lines L pw ++ first :: rest /\
       lineFor (Writer.now L pw) (Writer.activeAfter L pw) child first /\
       prettyLine.Indent first = childIndent /\
       Forall (fun line => exists it suffix,
                 Tree.descendant allByParent child it /\
                 lineFor (Writer.now L pw) (Writer.activeAfter L pw) it line /\
                 prettyLine.Indent line = (childIndent +:+ suffix)%string /\
                 suffix <> EmptyString /\ bars suffix) rest) ->
  forall cc pw pw',
    (forall child, child ∈ cc -> child ∈ childrenOf allByParent (hn.ID item)) ->
    Writer.writeChildren L recurse indent cc pw = Some pw' ->
    Writer.now L pw' = Writer.now L pw /\
    Writer.activeAfter L pw' = Writer.activeAfter L pw /\
    exists new,
      Writer.lines L pw' = Writer.lines L pw ++ new /\
      Forall (fun line => exists it suffix,
                Tree.descendant allByParent item it /\
                lineFor (Writer.now L pw) (Writer.activeAfter L pw) it line /\
                prettyLine.Indent line = (indent +:+ suffix)%string /\
                suffix <> EmptyString /\ bars suffix) new.
Proof.
  intros Hrec. induction cc as [|child rest IH]; intros pw pw' Hcc Hrun;
    simpl in Hrun.
  - injection Hrun as <-. repeat split. exists []. by rewrite app_nil_r.
  - set (bar := match rest with _ :: _ => "|"%string | [] => " "%string end).
    assert (Hbar : bar <> EmptyString /\ bars bar)
      by (subst bar; destruct rest; split; done).
    assert (Hindent :
      match rest with
      | _ :: _ => (indent +:+ "|")%string
      | [] => (indent +:+ " ")%string
      end = (indent +:+ bar)%string) by (subst bar; by destruct rest).
    rewrite Hindent in Hrun. clearbody bar.
    destruct (recurse pw child (indent +:+ bar)%string) as [pw1|] eqn:Hchild;
      [|discriminate].
    apply Hrec in Hchild
      as (Hnow1 & Hafter1 & first & below & Hlines1 & Hfirst & Hind & Hbelow).
    apply IH in Hrun as (Hnow & Hafter & new & Hlines & Hnew);
      [|intros c Hc; apply Hcc; by apply list_elem_of_further].
    assert (Hchild_in : child ∈ childrenOf allByParent (hn.ID item))
      by (apply Hcc; apply list_elem_of_here).
    split; [congruence|]. split; [congruence|].
    exists (first :: below ++ new). split.
    { rewrite Hlines, Hlines1. by rewrite <- app_assoc. }
    constructor; [|apply Forall_app; split].
    + exists child, bar. split; [by apply Tree.descendant_child|].
      split; [exact Hfirst|]. by split.
    + eapply Forall_impl; [exact Hbelow|].
      intros line (it & suffix & Hdesc & Hline & Hsuffix & Hne & Hbars).
      exists it, (bar +:+ suffix)%string.
      split; [by apply Tree.descendant_below with child|].
      split; [exact Hline|]. split; [by rewrite Hsuffix, append_assoc|].
      destruct Hbar as [Hbar_ne Hbar_chars]. split.
      * destruct bar; [done | by rewrite append_cons].
      * clear -Hbar_chars Hbars. induction bar as [|c bar IHb];
          [by rewrite append_nil|].
        rewrite append_cons. simpl in *.
        apply andb_true_iff in Hbar_chars as [Hc Hrest].
        rewrite Hc. simpl. by apply IHb.
    + rewrite Hnow1, Hafter1 in Hnew. exact Hnew.
Qed.

Lemma writeTreeRecurse_lines (fuel : nat) :
  forall (pw pw' : Writer.prettyWriter L) (item : hn.Item) (indent : string),
    Writer.writeTreeRecurse L fuel pw item allByParent indent = Some pw' ->
    Writer.now L pw' = Writer.now L pw /\
    Writer.activeAfter L pw' = Writer.activeAfter L pw /\
    exists first rest,
      Writer.lines L pw' = Writer.lines L pw ++ first :: rest /\
      lineFor (Writer.now L pw) (Writer.activeAfter L pw) item first /\
      prettyLine.Indent first = indent /\
      Forall (fun line => exists it suffix,
                Tree.descendant allByParent item it /\
                lineFor (Writer.now L pw) (Writer.activeAfter L pw) it line /\
                prettyLine.Indent line = (indent +:+ suffix)%string /\
                suffix <> EmptyString /\ bars suffix) rest.
Proof.
  induction fuel as [|fuel IH]; intros pw pw' item indent Hrun; [discriminate|].
  simpl in Hrun.
  match type of Hrun with
  | context [Writer.writeItemIndent L pw item ?show ?act indent] =>
      destruct (writeItemIndent_spec pw item show act indent)
        as (text & Hlines1 & Hnow1 & Hafter1 & Htext);
      set (pw1 := Writer.writeItemIndent L pw item show act indent) in *
  end.
  apply (writeChildren_lines _ item indent) in Hrun
    as (Hnow & Hafter & new & Hlines & Hnew).
  - split; [congruence|]. split; [congruence|].
    eexists _, new. split; [rewrite Hlines, Hlines1; by rewrite <- app_assoc|].
    split; [|split; [reflexivity|]].
    + simpl. repeat split. intros Hshow. apply Htext. exact Hshow.
    + rewrite Hnow1, Hafter1 in Hnew. exact Hnew.
  - intros pw2 child childIndent pw3 Hchild. by apply IH in Hchild.
  - auto.
Qed.

Lemma writeChildren_covers
    (recurse : Writer.prettyWriter L -> hn.Item -> string ->
               option (Writer.prettyWriter L))
    (indent : string) :
  (forall pw child childIndent pw',
     recurse pw child childIndent = Some pw' ->
     exists new,
       Writer.lines L pw' = Writer.lines L pw ++ new /\
       forall it, it = child \/ Tree.descendant allByParent child it ->
         exists line, line ∈ new /\ prettyLine.ID line = hn.ID it) ->
  forall cc pw pw',
    Writer.writeChildren L recurse indent cc pw = Some pw' ->
    exists new,
      Writer.lines L pw' = Writer.lines L pw ++ new /\
      forall child it,
        child ∈ cc -> it = child \/ Tree.descendant allByParent child it ->
        exists line, line ∈ new /\ prettyLine.ID line = hn.ID it.
Proof.
  intros Hrec. induction cc as [|child rest IH]; intros pw pw' Hrun; simpl in Hrun.
  - injection Hrun as <-. exists []. split; [by rewrite app_nil_r|].
    intros child it Hin. inversion Hin.
  - destruct (recurse pw child _) as [pw1|] eqn:Hchild; [|discriminate].
    apply Hrec in Hchild as (new1 & Hlines1 & Hcover1).
    apply IH in Hrun as (new2 & Hlines2 & Hcover2).
    exists (new1 ++ new2). split; [rewrite Hlines2, Hlines1; by rewrite <- app_assoc|].
    intros c it Hin Hit. apply elem_of_cons in Hin as [-> | Hin].
    + destruct (Hcover1 it Hit) as (line & Hline & Hid).
      exists line. split; [apply elem_of_app; by left | exact Hid].
    + destruct (Hcover2 c it Hin Hit) as (line & Hline & Hid).
      exists line. split; [apply elem_of_app; by right | exact Hid].
Qed.

(** X16: a walk that comes back has left nothing out: the item and
    every reply below it, at any depth, have a line among the ones
    added. *)
Theorem writeTreeRecurse_covers (fuel : nat) :
  forall (pw pw' : Writer.prettyWriter L) (item : hn.Item) (indent : string),
    Writer.writeTreeRecurse L fuel pw item allByParent indent = Some pw' ->
    exists new,
      Writer.lines L pw' = Writer.lines L pw ++ new /\
      forall it, it = item \/ Tree.descendant allByParent item it ->
        exists line, line ∈ new /\ prettyLine.ID line = hn.ID it.
Proof.
  induction fuel as [|fuel IH]; intros pw pw' item indent Hrun; [discriminate|].
  simpl in Hrun.
  match type of Hrun with
  | context [Writer.writeItemIndent L pw item ?show ?act indent] =>
      destruct (writeItemIndent_spec pw item show act indent)
        as (text & Hlines1 & _);
      set (pw1 := Writer.writeItemIndent L pw item show act indent) in *
  end.
  apply writeChildren_covers in Hrun as (new & Hlines & Hcover);
    [|intros pw2 child childIndent pw3 Hchild; by apply IH in Hchild].
  eexists (_ :: new). split; [rewrite Hlines, Hlines1; by rewrite <- app_assoc|].
  intros it [-> | Hdesc].
  - eexists. split; [apply list_elem_of_here | reflexivity].
  - assert (Hvia : exists child,
              child ∈ childrenOf allByParent (hn.ID item) /\
              (it = child \/ Tree.descendant allByParent child it)).
    { inversion Hdesc; subst; eauto. }
    destruct Hvia as (child & Hin & Hit).
    destruct (Hcover child it Hin Hit) as (line & Hline & Hid).
    exists line. split; [by apply list_elem_of_further | exact Hid].
Qed.

Lemma writeChildren_mono
    (r1 r2 : Writer.prettyWriter L -> hn.Item -> string ->
             option (Writer.prettyWriter L))
    (indent : string) :
  (forall pw child childIndent pw',
     r1 pw child childIndent = Some pw' -> r2 pw child childIndent = Some pw') ->
  forall cc pw pw',
    Writer.writeChildren L r1 indent cc pw = Some pw' ->
    Writer.writeChildren L r2 indent cc pw = Some pw'.
Proof.
  intros Hr. induction cc as [|child rest IH]; intros pw pw' Hrun; simpl in *;
    [exact Hrun|].
  destruct (r1 pw child _) as [pw1|] eqn:Hchild; [|discriminate].
  rewrite (Hr _ _ _ _ Hchild). by apply IH.
Qed.

Lemma writeTreeRecurse_more_fuel (fuel : nat) :
  forall (pw pw' : Writer.prettyWriter L) (item : hn.Item) (indent : string),
    Writer.writeTreeRecurse L fuel pw item allByParent indent = Some pw' ->
    Writer.writeTreeRecurse L (S fuel) pw item allByParent indent = Some pw'.
Proof.
  induction fuel as [|fuel IH]; intros pw pw' item indent Hrun; [discriminate|].
  change (Writer.writeTreeRecurse L (S (S fuel)) pw item allByParent indent)
    with (Writer.writeChildren L
            (fun pw child childIndent =>
               Writer.writeTreeRecurse L (S fuel) pw child allByParent childIndent)
            indent (childrenOf allByParent (hn.ID item))
            (Writer.writeItemIndent L pw item
               (Tree.isActive item (Writer.activeAfter L pw)
                || Tree.findActiveChild item allByParent (Writer.activeAfter L pw)
                || bool_decide (hn.Parent item = None))
               (Tree.isActive item (Writer.activeAfter L pw)) indent)).
  eapply writeChildren_mono; [|exact Hrun].
  intros pw2 child childIndent pw3. apply IH.
Qed.

Lemma writeTreeRecurse_fuel_le (n fuel : nat) :
  (n <= fuel)%nat ->
  forall (pw pw' : Writer.prettyWriter L) (item : hn.Item) (indent : string),
    Writer.writeTreeRecurse L n pw item allByParent indent = Some pw' ->
    Writer.writeTreeRecurse L fuel pw item allByParent indent = Some pw'.
Proof.
  induction 1 as [|fuel Hle IH]; intros pw pw' item indent Hrun; [exact Hrun|].
  apply writeTreeRecurse_more_fuel. by apply IH.
Qed.

Lemma writeChildren_total
    (recurse : Writer.prettyWriter L -> hn.Item -> string ->
               option (Writer.prettyWriter L))
    (indent : string) (cc : list hn.Item) :
  Forall (fun child => forall pw childIndent, is_Some (recurse pw child childIndent)) cc ->
  forall pw, is_Some (Writer.writeChildren L recurse indent cc pw).
Proof.
  induction 1 as [|child rest Hchild _ IH]; intros pw; simpl; [by eexists|].
  destruct (Hchild pw (match rest with
                       | _ :: _ => (indent +:+ "|")%string
                       | [] => (indent +:+ " ")%string
                       end)) as [pw1 ->].
  apply IH.
Qed.

Lemma writeTreeRecurse_total (n : nat) :
  forall (item : hn.Item),
    Writer.fits n allByParent item ->
    forall pw indent,
      is_Some (Writer.writeTreeRecurse L n pw item allByParent indent).
Proof.
  induction n as [|n IH]; intros item Hfits pw indent; [destruct Hfits|].
  simpl. apply writeChildren_total.
  simpl in Hfits. eapply Forall_impl; [exact Hfits|].
  intros child Hchild pw2 childIndent. by apply IH.
Qed.

(** X17: on replies that go at most [n] levels deep the walk comes back
    with any fuel of [n] or more, and with the same lines and cache
    whatever the fuel. *)
Theorem writeTreeRecurse_returns
    (n fuel : nat) (pw : Writer.prettyWriter L) (item : hn.Item) (indent : string) :
  Writer.fits n allByParent item ->
  (n <= fuel)%nat ->
  exists pw',
    Writer.writeTreeRecurse L fuel pw item allByParent indent = Some pw' /\
    Writer.writeTreeRecurse L n pw item allByParent indent = Some pw'.
Proof.
  intros Hfits Hle.
  destruct (writeTreeRecurse_total n item Hfits pw indent) as [pw' Hrun].
  exists pw'. split; [|exact Hrun]. by apply (writeTreeRecurse_fuel_le n fuel).
Qed.

Lemma writeChildren_fits
    (recurse : Writer.prettyWriter L -> hn.Item -> string ->
               option (Writer.prettyWriter L))
    (indent : string) (P : hn.Item -> Prop) :
  (forall pw child childIndent pw',
     recurse pw child childIndent = Some pw' -> P child) ->
  forall cc pw pw',
    Writer.writeChildren L recurse indent cc pw = Some pw' -> Forall P cc.
Proof.
  intros Hrec. induction cc as [|child rest IH]; intros pw pw' Hrun; simpl in Hrun;
    [constructor|].
  destruct (recurse pw child _) as [pw1|] eqn:Hchild; [|discriminate].
  constructor; [by eapply Hrec | by eapply IH].
Qed.

Lemma writeTreeRecurse_fits (fuel : nat) :
  forall (pw pw' : Writer.prettyWriter L) (item : hn.Item) (indent : string),
    Writer.writeTreeRecurse L fuel pw item allByParent indent = Some pw' ->
    Writer.fits fuel allByParent item.
Proof.
  induction fuel as [|fuel IH]; intros pw pw' item indent Hrun; [discriminate|].
  simpl in *. eapply writeChildren_fits; [|exact Hrun].
  intros pw2 child childIndent pw3. apply IH.
Qed.

Lemma fits_descendant (a d : hn.Item) :
  Tree.descendant allByParent a d ->
  forall n, Writer.fits n allByParent a ->
  exists m, (m < n)%nat /\ Writer.fits m allByParent d.
Proof.
  induction 1 as [a c Hc | a c d Hc Hdesc IH]; intros n Hfits;
    (destruct n as [|n]; [destruct Hfits|]); simpl in Hfits.
  - exists n. split; [lia|]. by apply (proj1 (Forall_forall _ _) Hfits).
  - pose proof (proj1 (Forall_forall _ _) Hfits c Hc) as Hfc.
    destruct (IH n Hfc) as (m & Hlt & Hfd). exists m. split; [lia | exact Hfd].
Qed.

(** X18: through an item that is a reply below itself the walk never
    comes back, whatever the fuel: the recursion of the source has no
    guard against a cycle in the grouping. *)
Theorem writeTreeRecurse_cycle
    (item : hn.Item) (fuel : nat) (pw : Writer.prettyWriter L) (indent : string) :
  Tree.descendant allByParent item item ->
  Writer.writeTreeRecurse L fuel pw item allByParent indent = None.
Proof.
  intros Hcycle.
  destruct (Writer.writeTreeRecurse L fuel pw item allByParent indent)
    as [pw'|] eqn:Hrun; [exfalso | reflexivity].
  apply writeTreeRecurse_fits in Hrun. clear pw pw' indent.
  induction fuel as [fuel IH] using lt_wf_ind.
  destruct (fits_descendant item item Hcycle fuel Hrun) as (m & Hlt & Hm).
  by apply (IH m).
Qed.

End WriterFacts.

Section WriterLines.
Context (L : Library) (allByParent : gmap Z hn.ItemSet).


Lemma writeChildren_indents
    (recurse : Writer.prettyWriter L -> hn.Item -> string ->
               option (Writer.prettyWriter L))
    (indent : string) :
  (forall pw child childIndent pw',
     recurse pw child childIndent = Some pw' ->
     exists first rest,
       Writer.lines L pw' = Writer.lines L pw ++ first :: rest /\
       prettyLine.ID first = hn.ID child /\
       prettyLine.Indent first = childIndent) ->
  forall cc pw pw',
    Writer.writeChildren L recurse indent cc pw = Some pw' ->
    exists new,
      Writer.lines L pw' = Writer.lines L pw ++ new /\
      forall k child,
        cc !! k = Some child ->
        exists line,
          line ∈ new /\ prettyLine.ID line = hn.ID child /\
          prettyLine.Indent line =
            (indent +:+ (if decide (S k = length cc) then " " else "|"))%string.
Proof.
  intros Hrec. induction cc as [|child rest IH]; intros pw pw' Hrun; simpl in Hrun.
  - injection Hrun as <-. exists []. split; [by rewrite app_nil_r|].
    intros k child Hk. discriminate.
  - destruct (recurse pw child _) as [pw1|] eqn:Hchild; [|discriminate].
    apply Hrec in Hchild as (first & below & Hlines1 & Hid & Hind).
    apply IH in Hrun as (new & Hlines & Hnew).
    exists (first :: below ++ new).
    split; [rewrite Hlines, Hlines1; by rewrite <- app_assoc|].
    intros [|k] c Hk; simpl in Hk.
    + injection Hk as <-. exists first. split; [apply list_elem_of_here|].
      split; [exact Hid|]. rewrite Hind.
      destruct rest as [|c' rest']; cbn [length].
      * by rewrite decide_True.
      * by rewrite decide_False by lia.
    + destruct (Hnew k c Hk) as (line & Hin & Hlid & Hlind).
      exists line. split.
      { apply list_elem_of_further, elem_of_app. by right. }
      split; [exact Hlid|]. rewrite Hlind. cbn [length].
      destruct (decide (S k = length rest)) as [Heq|Hne].
      * rewrite decide_True by lia. reflexivity.
      * rewrite decide_False by lia. reflexivity.
Qed.

(** X19: among the lines a walk adds, each direct reply of the item has
    a line indented by the item's indentation and one more byte: a blank
    for the last reply, a bar for every other. *)
Theorem writeTreeRecurse_children
    (fuel : nat) (pw pw' : Writer.prettyWriter L) (item : hn.Item)
    (indent : string) (k : nat) (child : hn.Item) :
  Writer.writeTreeRecurse L fuel pw item allByParent indent = Some pw' ->
  childrenOf allByParent (hn.ID item) !! k = Some child ->
  exists new line,
    Writer.lines L pw' = Writer.lines L pw ++ new /\
    line ∈ new /\
    prettyLine.ID line = hn.ID child /\
    prettyLine.Indent line =
      (indent +:+
       (if decide (S k = length (childrenOf allByParent (hn.ID item)))
        then " " else "|"))%string.
Proof.
  destruct fuel as [|fuel]; [discriminate|]. simpl. intros Hrun Hk.
  match type of Hrun with
  | context [Writer.writeItemIndent L pw item ?show ?act indent] =>
      destruct (writeItemIndent_spec L pw item show act indent)
        as (text & Hlines1 & _);
      set (pw1 := Writer.writeItemIndent L pw item show act indent) in *
  end.
  apply writeChildren_indents in Hrun as (new & Hlines & Hnew).
  - destruct (Hnew k child Hk) as (line & Hin & Hid & Hind).
    eexists (_ :: new), line.
    split; [rewrite Hlines, Hlines1; by rewrite <- app_assoc|].
    split; [by apply list_elem_of_further|]. by split.
  - intros pw2 c childIndent pw3 Hchild.
    apply (writeTreeRecurse_lines L allByParent) in Hchild
      as (_ & _ & first & rest & Hl & Hfirst & Hind & _).
    exists first, rest. split; [exact Hl|]. split; [apply Hfirst | exact Hind].
Qed.

Lemma filter_indented (ls : list prettyLine.t) :
  Forall (fun line => prettyLine.Indent line <> EmptyString) ls ->
  filter (fun line => prettyLine.Indent line = EmptyString) ls = [].
Proof.
  induction 1 as [|line ls Hline _ IH]; [reflexivity|].
  rewrite filter_cons. by rewrite decide_False.
Qed.

Lemma writeTrees_top
    (fuel : nat) (items : list hn.Item) :
  forall (pw pw' : Writer.prettyWriter L),
    Writer.writeTrees L fuel pw items allByParent = Some pw' ->
    exists new,
      Writer.lines L pw' = Writer.lines L pw ++ new /\
      map prettyLine.ID
          (filter (fun line => prettyLine.Indent line = EmptyString) new) =
      map hn.ID items.
Proof.
  induction items as [|item rest IH]; intros pw pw' Hrun; simpl in Hrun.
  - injection Hrun as <-. exists []. split; [by rewrite app_nil_r | reflexivity].
  - destruct (Writer.writeTree L fuel pw item allByParent) as [pw1|] eqn:Htree;
      [|discriminate].
    unfold Writer.writeTree in Htree.
    apply (writeTreeRecurse_lines L allByParent) in Htree
      as (_ & _ & first & below & Hlines1 & Hfirst & Hind & Hbelow).
    apply IH in Hrun as (new & Hlines & Hnew).
    exists (first :: below ++ new).
    split; [rewrite Hlines, Hlines1; by rewrite <- app_assoc|].
    rewrite filter_cons, decide_True by exact Hind.
    rewrite filter_app, filter_indented, app_nil_l.
    + simpl. f_equal; [apply Hfirst | exact Hnew].
    + eapply Forall_impl; [exact Hbelow|].
      intros line (it & suffix & _ & _ & Hsuffix & Hne & _).
      rewrite append_nil in Hsuffix. by rewrite Hsuffix.
Qed.

End WriterLines.

(** X20: a 200 of the first handler of /active lists the items the item
    client returned, in its order, as the lines without indentation;
    every other line is indented.  The two cutoffs are counted back from
    one reading of the clock. *)
Theorem first_handler_lines
    (L : Library)
    (GA : Go.Time -> Go.Time -> Z -> Z -> result (list hn.Item * gmap Z hn.ItemSet))
    (fuel : nat) (query : gmap string string) (now : Go.Time)
    (textCache textCache' : MapCache L) (ls : list prettyLine.t) :
  Writer.handleActive L GA fuel query now textCache =
    Some (Writer.OKLines ls, textCache') ->
  exists window maxAge minBy items tree,
    GA (Time_Add now (dneg window)) (Time_Add now (dneg maxAge)) minBy 0 =
      Ok (items, tree) /\
    map prettyLine.ID
        (filter (fun line => prettyLine.Indent line = EmptyString) ls) =
    map hn.ID items.
Proof.
  unfold Writer.handleActive. intros Hrun.
  destruct (ParseDuration L _) as [window|]; [|discriminate].
  destruct (ParseDuration L _) as [maxAge|]; [|discriminate].
  destruct (Atoi _) as [minBy|]; [|discriminate].
  destruct (GA _ _ minBy 0) as [[items tree]|e] eqn:Hactive; [|discriminate].
  destruct (Writer.writeTrees L fuel _ items tree) as [pw'|] eqn:Htrees;
    [|discriminate].
  injection Hrun as <- _.
  apply writeTrees_top in Htrees as (new & Hlines & Htop). simpl in Hlines.
  exists window, maxAge, minBy, items, tree. split; [exact Hactive|].
  by rewrite Hlines.
Qed.


Lemma writeTreeRecurse_covers_witness :
  exists pw' line,
    Writer.writeTreeRecurse
      (unl.library (Ok ∅) (Ok ([unl.story], unl.thread))) 3
      (Writer.mkWriter (unl.library (Ok ∅) (Ok ([unl.story], unl.thread)))
         tt Sample.now (Sample.now - Hour) [])
      unl.story unl.thread "" = Some pw' /\
    line ∈ Writer.lines _ pw' /\ prettyLine.ID line = 3.
Proof.
  destruct (Writer.writeTreeRecurse
              (unl.library (Ok ∅) (Ok ([unl.story], unl.thread))) 3
              (Writer.mkWriter (unl.library (Ok ∅) (Ok ([unl.story], unl.thread)))
                 tt Sample.now (Sample.now - Hour) [])
              unl.story unl.thread "") as [pw'|] eqn:Hrun;
    [|vm_compute in Hrun; discriminate].
  destruct (writeTreeRecurse_covers _ _ _ _ _ _ _ Hrun) as (new & Hlines & Hcover).
  destruct (Hcover unl.reply2) as (line & Hin & Hid).
  { right. apply Tree.descendant_below with (c := unl.reply1).
    - vm_compute. apply list_elem_of_here.
    - apply Tree.descendant_child. vm_compute. apply list_elem_of_here. }
  exists pw', line. split; [reflexivity|]. split; [|exact Hid].
  rewrite Hlines. simpl. exact Hin.
Defined.

Lemma writeTreeRecurse_returns_witness :
  exists pw',
    Writer.writeTreeRecurse
      (unl.library (Ok ∅) (Ok ([unl.story], unl.thread))) 10
      (Writer.mkWriter (unl.library (Ok ∅) (Ok ([unl.story], unl.thread)))
         tt Sample.now (Sample.now - Hour) [])
      unl.story unl.thread "" = Some pw' /\
    Writer.writeTreeRecurse
      (unl.library (Ok ∅) (Ok ([unl.story], unl.thread))) 3
      (Writer.mkWriter (unl.library (Ok ∅) (Ok ([unl.story], unl.thread)))
         tt Sample.now (Sample.now - Hour) [])
      unl.story unl.thread "" = Some pw'.
Proof.
  apply writeTreeRecurse_returns; [|lia].
  vm_compute. repeat constructor.
Defined.

Lemma writeTreeRecurse_cycle_witness :
  Writer.writeTreeRecurse
    (unl.library (Ok ∅) (Ok ([unl.story], unl.thread))) 1000
    (Writer.mkWriter (unl.library (Ok ∅) (Ok ([unl.story], unl.thread)))
       tt Sample.now (Sample.now - Hour) [])
    unl.story {[ 1 := [unl.reply1]; 2 := [unl.story] ]} "" = None.
Proof.
  apply writeTreeRecurse_cycle.
  apply Tree.descendant_below with (c := unl.reply1).
  - vm_compute. apply list_elem_of_here.
  - apply Tree.descendant_child. vm_compute. apply list_elem_of_here.
Defined.

(** A story with two replies: the first is drawn with a bar, the last
    with a blank. *)
Lemma writeTreeRecurse_children_witness :
  exists pw' bar blank,
    Writer.writeTreeRecurse
      (unl.library (Ok ∅) (Ok ([unl.story], unl.thread))) 3
      (Writer.mkWriter (unl.library (Ok ∅) (Ok ([unl.story], unl.thread)))
         tt Sample.now (Sample.now - Hour) [])
      unl.story {[ 1 := [unl.reply1; unl.reply2] ]} "" = Some pw' /\
    bar ∈ Writer.lines _ pw' /\ prettyLine.ID bar = 2 /\
    prettyLine.Indent bar = "|"%string /\
    blank ∈ Writer.lines _ pw' /\ prettyLine.ID blank = 3 /\
    prettyLine.Indent blank = " "%string.
Proof.
  destruct (Writer.writeTreeRecurse
              (unl.library (Ok ∅) (Ok ([unl.story], unl.thread))) 3
              (Writer.mkWriter (unl.library (Ok ∅) (Ok ([unl.story], unl.thread)))
                 tt Sample.now (Sample.now - Hour) [])
              unl.story {[ 1 := [unl.reply1; unl.reply2] ]} "") as [pw'|] eqn:Hrun;
    [|vm_compute in Hrun; discriminate].
  destruct (writeTreeRecurse_children _ _ _ _ _ _ _ 0%nat unl.reply1 Hrun eq_refl)
    as (new1 & bar & Hlines1 & Hin1 & Hid1 & Hind1).
  destruct (writeTreeRecurse_children _ _ _ _ _ _ _ 1%nat unl.reply2 Hrun eq_refl)
    as (new2 & blank & Hlines2 & Hin2 & Hid2 & Hind2).
  exists pw', bar, blank. split; [reflexivity|].
  rewrite Hlines1 at 1. rewrite Hlines2.
  repeat split; assumption.
Defined.

Lemma first_handler_lines_witness :
  exists ls,
    Writer.handleActive
      (unl.library (Ok ∅) (Ok ([unl.story], unl.thread))) Sample.active
      3 ∅ Sample.now tt = Some (Writer.OKLines ls, tt) /\
    map prettyLine.ID
        (filter (fun line => prettyLine.Indent line = EmptyString) ls) =
    [100; 200].
Proof.
  destruct (Writer.handleActive
              (unl.library (Ok ∅) (Ok ([unl.story], unl.thread))) Sample.active
              3 ∅ Sample.now tt) as [[reply c]|] eqn:Hrun;
    [|vm_compute in Hrun; discriminate].
  assert (Hreply : exists ls, reply = Writer.OKLines ls /\ c = tt).
  { vm_compute in Hrun. injection Hrun as <- <-. by eexists. }
  destruct Hreply as (ls & -> & ->). exists ls. split; [reflexivity|].
  destruct (first_handler_lines _ _ _ _ _ _ _ _ Hrun)
    as (window & maxAge & minBy & items & tree & Hactive & Htop).
  rewrite Htop. injection Hactive as <- _. reflexivity.
Defined.

(** ** frontPageAgeExtractor: the scanner and the expression *)

Lemma all_chars_app (p : ascii -> bool) (a b : string) :
  FrontPage.all_chars p (a +:+ b) =
  FrontPage.all_chars p a && FrontPage.all_chars p b.
Proof.
  induction a as [|c a IH]; [reflexivity|].
  rewrite append_cons. simpl. by rewrite IH, andb_assoc.
Qed.

Lemma append_empty_r (a : string) : (a +:+ EmptyString)%string = a.
Proof.
  induction a as [|c a IH]; [reflexivity|]. by rewrite append_cons, IH.
Qed.

Lemma append_length (a b : string) :
  String.length (a +:+ b) = (String.length a + String.length b)%nat.
Proof.
  induction a as [|c a IH]; [reflexivity|].
  rewrite append_cons. simpl. by rewrite IH.
Qed.

Lemma strip_prefix_spec (p s r : string) :
  Extractor.strip_prefix p s = Some r <-> s = (p +:+ r)%string.
Proof.
  revert s. induction p as [|a p IH]; intros s; simpl.
  - rewrite append_nil. split; congruence.
  - destruct s as [|b s]; [split; discriminate|].
    rewrite append_cons. destruct (Ascii.eqb a b) eqn:Hab.
    + apply Ascii.eqb_eq in Hab as ->. rewrite IH. split; congruence.
    + apply Ascii.eqb_neq in Hab. split; [discriminate | congruence].
Qed.

Lemma strip_suffix_spec (suffix s g : string) :
  Extractor.strip_suffix suffix s = Some g <-> s = (g +:+ suffix)%string.
Proof.
  revert g. induction s as [|c s IH]; intros g.
  - cbn [Extractor.strip_suffix].
    destruct (String.eqb_spec EmptyString suffix) as [<- | Hne].
    + split; [intros [= <-]; reflexivity|].
      intros H. destruct g; [reflexivity | discriminate].
    + split; [discriminate|]. intros H. destruct g; [|discriminate].
      rewrite append_nil in H. congruence.
  - cbn [Extractor.strip_suffix].
    destruct (String.eqb_spec (String c s) suffix) as [<- | Hne].
    + split; [intros [= <-]; reflexivity|].
      intros H. apply (f_equal String.length) in H.
      rewrite append_length in H.
      destruct g; [reflexivity | simpl in H; lia].
    + destruct (Extractor.strip_suffix suffix s) as [g'|] eqn:Hs; simpl.
      * pose proof (proj1 (IH g') eq_refl) as Hg'. subst s. split.
        -- intros [= <-]. by rewrite append_cons.
        -- intros H. destruct g as [|c' g]; [rewrite append_nil in H; congruence|].
           rewrite append_cons in H. injection H as <- H.
           f_equal. f_equal.
           apply (f_equal String.length) in H as Hlen.
           rewrite !append_length in Hlen.
           clear -H Hlen. revert g H Hlen.
           induction g' as [|x g' IHg]; intros [|y g] H Hlen;
             try reflexivity; simpl in Hlen; try lia.
           rewrite !append_cons in H. injection H as <- H.
           f_equal. apply IHg; [exact H | lia].
      * split; [discriminate|].
        intros H. destruct g as [|c' g]; [rewrite append_nil in H; congruence|].
        rewrite append_cons in H. injection H as _ H.
        apply IH in H. discriminate.
Qed.

Lemma snoc_inj (i init : string) (l last : ascii) :
  (i +:+ String l EmptyString = init +:+ String last EmptyString)%string ->
  i = init /\ l = last.
Proof.
  revert init. induction i as [|y i IHi]; intros init H.
  - rewrite append_nil in H. destruct init as [|z init].
    + rewrite append_nil in H. by injection H.
    + rewrite append_cons in H. injection H as _ H.
      destruct init; discriminate.
  - rewrite append_cons in H. destruct init as [|z init].
    + rewrite append_nil in H. injection H as _ H.
      destruct i; discriminate.
    + rewrite append_cons in H. injection H as <- H.
      destruct (IHi _ H) as [-> ->]. done.
Qed.

Lemma unsnoc_snoc (init : string) (last : ascii) :
  Extractor.unsnoc (init +:+ String last EmptyString) = Some (init, last).
Proof.
  induction init as [|c init IH]; [reflexivity|].
  rewrite append_cons.
  destruct (init +:+ String last EmptyString)%string as [|c' s] eqn:Hs.
  - destruct init; discriminate.
  - change (Extractor.unsnoc (String c (String c' s)))
      with (match Extractor.unsnoc (String c' s) with
            | Some (init, last) => Some (String c init, last)
            | None => None
            end).
    by rewrite IH.
Qed.

Lemma unsnoc_spec (s init : string) (last : ascii) :
  Extractor.unsnoc s = Some (init, last) <->
  s = (init +:+ String last EmptyString)%string.
Proof.
  split; [|intros ->; apply unsnoc_snoc].
  revert init last. induction s as [|c s IH]; intros init last H; [discriminate|].
  destruct s as [|c' s].
  - injection H as <- <-. reflexivity.
  - change (Extractor.unsnoc (String c (String c' s)))
      with (match Extractor.unsnoc (String c' s) with
            | Some (init, last) => Some (String c init, last)
            | None => None
            end) in H.
    destruct (Extractor.unsnoc (String c' s)) as [[i l]|]; [|discriminate].
    injection H as <- <-. rewrite append_cons. f_equal. by apply IH.
Qed.

Lemma split_digits_digits (d : string) :
  FrontPage.all_chars is_digit d = true -> Extractor.split_digits d = (EmptyString, d).
Proof.
  induction d as [|c d IH]; [reflexivity|]. simpl.
  intros [Hc Hd]%andb_true_iff. by rewrite (IH Hd), Hc.
Qed.

Lemma split_digits_app (pre d : string) :
  FrontPage.all_chars is_digit d = true ->
  (pre = EmptyString \/
   exists init c, pre = (init +:+ String c EmptyString)%string /\ is_digit c = false) ->
  Extractor.split_digits (pre +:+ d) = (pre, d).
Proof.
  intros Hd. induction pre as [|c pre IH]; intros Hpre.
  - rewrite append_nil. by apply split_digits_digits.
  - rewrite append_cons. cbn [Extractor.split_digits].
    destruct Hpre as [|(init & c0 & Heq & Hc0)]; [discriminate|].
    destruct pre as [|c' pre].
    + rewrite append_nil, (split_digits_digits _ Hd).
      destruct init as [|x init].
      * rewrite append_nil in Heq. injection Heq as ->. by rewrite Hc0.
      * rewrite append_cons in Heq. injection Heq as _ Heq.
        destruct init; discriminate.
    + rewrite IH; [reflexivity|]. right.
      destruct init as [|x init].
      * rewrite append_nil in Heq. discriminate.
      * rewrite append_cons in Heq. injection Heq as _ Heq. by exists init, c0.
Qed.

Lemma split_digits_spec (t pre d : string) :
  Extractor.split_digits t = (pre, d) ->
  t = (pre +:+ d)%string /\ FrontPage.all_chars is_digit d = true.
Proof.
  revert pre d. induction t as [|c t IH]; intros pre d H.
  - injection H as <- <-. done.
  - cbn [Extractor.split_digits] in H.
    destruct (Extractor.split_digits t) as [pre' d'].
    destruct (IH _ _ eq_refl) as [-> Hd'].
    destruct pre' as [|x pre'].
    + rewrite append_nil. destruct (is_digit c) eqn:Hc; injection H as <- <-.
      * split; [reflexivity|]. simpl. by rewrite Hc.
      * done.
    + injection H as <- <-. done.
Qed.

Lemma all_chars_impl (p q : ascii -> bool) (s : string) :
  (forall c, p c = true -> q c = true) ->
  FrontPage.all_chars p s = true -> FrontPage.all_chars q s = true.
Proof.
  intros Hpq. induction s as [|c s IH]; [reflexivity|]. simpl.
  intros [Hc Hs]%andb_true_iff. by rewrite (Hpq _ Hc), IH.
Qed.

Lemma not_quote_of (p : ascii -> bool) (c : ascii) :
  p Extractor.quote = false -> p c = true -> Extractor.not_quote c = true.
Proof.
  intros Hq Hc. unfold Extractor.not_quote.
  destruct (Ascii.eqb_spec c Extractor.quote) as [-> | _]; [congruence | reflexivity].
Qed.

Lemma nonempty_snoc (w : string) :
  w <> EmptyString -> exists init last, w = (init +:+ String last EmptyString)%string.
Proof.
  induction w as [|c w IH]; [done|]. intros _.
  destruct w as [|c' w].
  - by exists EmptyString, c.
  - destruct IH as (init & last & Hw); [done|].
    exists (String c init), last. by rewrite append_cons, <- Hw.
Qed.

(** The scanner finds a match at the head of [s] exactly when [s]
    starts with a word of the expression, and its groups are the groups
    of that word: a title of bytes other than the quote, blanks, the
    digits of the timestamp, the digits of the id, and a phrase free of
    [<] in front of [ ago]. *)
Lemma match_here_spec (s g1 g2 g3 rest : string) :
  Extractor.match_here s = Some (FrontPage.mkMatch g1 g2 g3, rest) <->
  exists x w,
    s = (Extractor.spanOpen +:+ x +:+ w +:+ g1 +:+ Extractor.hrefOpen +:+ g2
         +:+ Extractor.hrefClose +:+ g3 +:+ Extractor.ago
         +:+ Extractor.spanClose +:+ rest)%string /\
    x <> EmptyString /\ FrontPage.all_chars Extractor.not_quote x = true /\
    w <> EmptyString /\ FrontPage.all_chars FrontPage.is_space w = true /\
    g1 <> EmptyString /\ FrontPage.all_chars is_digit g1 = true /\
    g2 <> EmptyString /\ FrontPage.all_chars is_digit g2 = true /\
    g3 <> EmptyString /\ FrontPage.all_chars Extractor.not_lt g3 = true.
Proof.
  split.
  - unfold Extractor.match_here. intros H.
    destruct (Extractor.strip_prefix Extractor.spanOpen s) as [s1|] eqn:H1;
      [|discriminate].
    apply strip_prefix_spec in H1 as ->.
    pose proof (take_drop Extractor.not_quote s1) as Hs1.
    pose proof (take_while_all Extractor.not_quote s1) as Htitle.
    destruct (Extractor.split_digits (FrontPage.take_while Extractor.not_quote s1))
      as [pre d] eqn:Hsplit.
    apply split_digits_spec in Hsplit as [Htd Hd].
    destruct (Extractor.unsnoc pre) as [[x w]|] eqn:Hpre; [|discriminate].
    apply unsnoc_spec in Hpre as ->.
    destruct (FrontPage.is_space w) eqn:Hw; cbn [negb] in H; [|discriminate].
    case_bool_decide as Hx; [discriminate|].
    case_bool_decide as Hg1; [discriminate|].
    destruct (Extractor.strip_prefix Extractor.hrefOpen _) as [s3|] eqn:H3;
      [|discriminate].
    apply strip_prefix_spec in H3.
    pose proof (take_drop is_digit s3) as Hs3.
    pose proof (take_while_all is_digit s3) as Hg2d.
    case_bool_decide as Hg2; [discriminate|].
    destruct (Extractor.strip_prefix Extractor.hrefClose _) as [s5|] eqn:H5;
      [|discriminate].
    apply strip_prefix_spec in H5.
    pose proof (take_drop Extractor.not_lt s5) as Hs5.
    pose proof (take_while_all Extractor.not_lt s5) as Hu.
    destruct (Extractor.strip_suffix Extractor.ago _) as [g|] eqn:Hago;
      [|discriminate].
    apply strip_suffix_spec in Hago.
    case_bool_decide as Hg3; [discriminate|].
    destruct (Extractor.strip_prefix Extractor.spanClose _) as [r|] eqn:H6;
      [|discriminate].
    apply strip_prefix_spec in H6.
    assert (Hword :
      s1 = ((x +:+ String w EmptyString) +:+ d +:+ Extractor.hrefOpen
            +:+ FrontPage.take_while is_digit s3 +:+ Extractor.hrefClose
            +:+ (g +:+ Extractor.ago) +:+ Extractor.spanClose +:+ r)%string).
    { rewrite <- Hs1 at 1. rewrite Htd, H3. rewrite <- Hs3 at 1. rewrite H5.
      rewrite <- Hs5 at 1. rewrite Hago, H6. by rewrite !append_assoc. }
    injection H as E1 E2 E3 E4. subst g1 g2 g3 rest.
    rewrite Htd, !all_chars_app in Htitle.
    apply andb_true_iff in Htitle as [[Hxq _]%andb_true_iff _].
    rewrite Hago, all_chars_app in Hu. apply andb_true_iff in Hu as [Hg3c _].
    exists x, (String w EmptyString).
    split; [|repeat split; try done; simpl; by rewrite Hw].
    rewrite Hword at 1. by rewrite !append_assoc.
  - intros (x & w & -> & Hx & Hxq & Hw & Hws & Hg1 & Hg1d & Hg2 & Hg2d & Hg3 & Hg3c).
    unfold Extractor.match_here.
    rewrite (proj2 (strip_prefix_spec _ _ _) eq_refl).
    destruct (nonempty_snoc w Hw) as (wi & wl & ->).
    rewrite all_chars_app in Hws. apply andb_true_iff in Hws as [Hwi Hwl].
    simpl in Hwl. rewrite andb_true_r in Hwl.
    set (tail1 := (g2 +:+ Extractor.hrefClose +:+ g3 +:+ Extractor.ago
                   +:+ Extractor.spanClose +:+ rest)%string).
    set (title := ((x +:+ wi) +:+ String wl EmptyString +:+ g1)%string).
    assert (Hre : (x +:+ (wi +:+ String wl EmptyString) +:+ g1
                   +:+ Extractor.hrefOpen +:+ tail1)%string
                  = (title +:+ Extractor.hrefOpen +:+ tail1)%string)
      by (subst title; by rewrite !append_assoc).
    rewrite Hre.
    assert (Htitle : FrontPage.all_chars Extractor.not_quote title = true).
    { subst title. rewrite !all_chars_app, Hxq. simpl.
      rewrite (all_chars_impl FrontPage.is_space Extractor.not_quote wi),
              (not_quote_of FrontPage.is_space wl),
              (all_chars_impl is_digit Extractor.not_quote g1); try done.
      - intros c. by apply not_quote_of.
      - intros c. by apply not_quote_of. }
    destruct (take_while_app Extractor.not_quote title
                (Extractor.hrefOpen +:+ tail1) Htitle) as [-> ->]; [reflexivity|].
    assert (Hsplit : Extractor.split_digits title
                     = ((x +:+ wi) +:+ String wl EmptyString, g1)%string).
    { subst title. rewrite <- append_assoc. apply split_digits_app; [exact Hg1d|].
      right. exists (x +:+ wi)%string, wl. split; [reflexivity|].
      destruct (is_digit wl) eqn:Hd; [|reflexivity].
      apply digit_not_space in Hd. congruence. }
    rewrite Hsplit, unsnoc_snoc, Hwl. cbn [negb].
    rewrite bool_decide_eq_false_2
      by (destruct x; [done | rewrite append_cons; discriminate]).
    rewrite bool_decide_eq_false_2 by done.
    rewrite (proj2 (strip_prefix_spec _ _ _) eq_refl). subst tail1.
    destruct (take_while_app is_digit g2
                (Extractor.hrefClose +:+ g3 +:+ Extractor.ago
                 +:+ Extractor.spanClose +:+ rest) Hg2d) as [-> ->];
      [reflexivity|].
    rewrite bool_decide_eq_false_2 by done.
    rewrite (proj2 (strip_prefix_spec _ _ _) eq_refl).
    assert (Hre2 : (g3 +:+ Extractor.ago +:+ Extractor.spanClose +:+ rest)%string
                   = ((g3 +:+ Extractor.ago) +:+ Extractor.spanClose +:+ rest)%string)
      by (by rewrite !append_assoc).
    rewrite Hre2.
    destruct (take_while_app Extractor.not_lt (g3 +:+ Extractor.ago)
                (Extractor.spanClose +:+ rest)) as [-> ->];
      [by rewrite all_chars_app, Hg3c | reflexivity |].
    rewrite (proj2 (strip_suffix_spec _ _ _) eq_refl).
    rewrite bool_decide_eq_false_2 by done.
    by rewrite (proj2 (strip_prefix_spec _ _ _) eq_refl).
Qed.

Lemma digits_val_total (s : string) (acc : Z) :
  FrontPage.all_chars is_digit s = true -> 0 <= acc ->
  exists v, digits_val acc s = Some v /\ acc <= v.
Proof.
  revert acc. induction s as [|c s IH]; intros acc Hs Hacc; simpl.
  - exists acc. split; [reflexivity | lia].
  - simpl in Hs. apply andb_true_iff in Hs as [Hc Hs]. rewrite Hc.
    assert (Hd : 0 <= digit_val c).
    { unfold is_digit in Hc. cbv zeta in Hc.
      apply andb_true_iff in Hc as [Hlo%Z.leb_le _]. unfold digit_val. lia. }
    destruct (IH (acc * 10 + digit_val c) Hs) as (v & Hv & Hle); [lia|].
    exists v. split; [exact Hv | lia].
Qed.

(** On a run of digits [ParseInt] gives the decimal value, and refuses
    it only when it is beyond the largest int64. *)
Lemma ParseInt_digits (s : string) :
  s <> EmptyString -> FrontPage.all_chars is_digit s = true ->
  exists v, digits_val 0 s = Some v /\ 0 <= v /\
            ParseInt s = if v <=? maxInt64 then Some v else None.
Proof.
  intros Hne Hs.
  destruct (digits_val_total s 0 Hs) as (v & Hv & Hpos); [lia|].
  exists v. split; [exact Hv|]. split; [exact Hpos|].
  unfold ParseInt.
  assert (Hplain :
    match s with
    | String "+" s' => option_map (fun v => v) (parse_digits s')
    | String "-" s' => option_map Z.opp (parse_digits s')
    | _ => parse_digits s
    end = Some v).
  { destruct s as [|c s]; [done|].
    simpl in Hs. apply andb_true_iff in Hs as [Hc _].
    transitivity (parse_digits (String c s)); [|exact Hv].
    destruct c as [[] [] [] [] [] [] [] []]; try reflexivity; discriminate Hc. }
  rewrite Hplain. unfold in_int64.
  assert (Hmin : (minInt64 <=? v) = true) by (apply Z.leb_le; unfold minInt64; lia).
  by rewrite Hmin.
Qed.

Lemma scan_elem (m : FrontPage.Match) (s : string) :
  forall skip, m ∈ Extractor.scan skip s ->
  exists s' rest, Extractor.match_here s' = Some (m, rest).
Proof.
  induction s as [|c s IH]; intros skip Hin; simpl in Hin; [inversion Hin|].
  destruct skip as [|k]; [|by apply IH in Hin].
  destruct (Extractor.match_here (String c s)) as [[m' rest]|] eqn:Hhere.
  - apply elem_of_cons in Hin as [-> | Hin]; [by eexists _, _ | by apply IH in Hin].
  - by apply IH in Hin.
Qed.

(** X21: in every match the extractor reports, the timestamp and the id
    are non-empty runs of digits and the phrase is non-empty and free of
    [<]; so the timestamp and the id parse as integers unless their value
    is beyond the largest int64. *)
Theorem extractor_groups (body : string) (m : FrontPage.Match) :
  m ∈ Extractor.FindAllSubmatch body ->
  (FrontPage.m_ts m <> EmptyString /\
   FrontPage.all_chars is_digit (FrontPage.m_ts m) = true) /\
  (FrontPage.m_id m <> EmptyString /\
   FrontPage.all_chars is_digit (FrontPage.m_id m) = true) /\
  (FrontPage.m_age m <> EmptyString /\
   FrontPage.all_chars Extractor.not_lt (FrontPage.m_age m) = true) /\
  (exists ts, digits_val 0 (FrontPage.m_ts m) = Some ts /\ 0 <= ts /\
     ParseInt (FrontPage.m_ts m) = if ts <=? maxInt64 then Some ts else None) /\
  (exists id, digits_val 0 (FrontPage.m_id m) = Some id /\ 0 <= id /\
     Atoi (FrontPage.m_id m) = if id <=? maxInt64 then Some id else None).
Proof.
  intros Hin. apply scan_elem in Hin as (s' & rest & Hhere).
  destruct m as [g1 g2 g3].
  apply match_here_spec in Hhere
    as (x & w & _ & _ & _ & _ & _ & Hg1 & Hg1d & Hg2 & Hg2d & Hg3 & Hg3c).
  simpl. repeat split; try done.
  - by apply ParseInt_digits.
  - by apply ParseInt_digits.
Qed.

Lemma scan_skip (a rest : string) :
  Extractor.scan (String.length a) (a +:+ rest) = Extractor.scan 0 rest.
Proof.
  induction a as [|c a IH]; [by rewrite append_nil; destruct rest|].
  rewrite append_cons. simpl. exact IH.
Qed.

(** X22: the search goes on behind a match: when the expression matches
    at the head of the text, the matches of the text are that match
    followed by the matches of what comes after it, and nothing inside
    the match is matched again. *)
Theorem FindAllSubmatch_resumes (s rest : string) (m : FrontPage.Match) :
  Extractor.match_here s = Some (m, rest) ->
  Extractor.FindAllSubmatch s = m :: Extractor.FindAllSubmatch rest.
Proof.
  intros Hhere. destruct m as [g1 g2 g3].
  pose proof (proj1 (match_here_spec _ _ _ _ _) Hhere) as (x & w & Hs & _).
  assert (Hword : exists c word, s = (String c word +:+ rest)%string).
  { rewrite Hs. destruct Extractor.spanOpen as [|c open] eqn:Hopen;
      [vm_compute in Hopen; discriminate|].
    exists c,
      (open +:+ x +:+ w +:+ g1 +:+ Extractor.hrefOpen +:+ g2
       +:+ Extractor.hrefClose +:+ g3 +:+ Extractor.ago +:+ Extractor.spanClose)%string.
    rewrite !append_cons. f_equal. by rewrite !append_assoc. }
  destruct Hword as (c & word & ->).
  unfold Extractor.FindAllSubmatch. rewrite append_cons in *.
  cbn [Extractor.scan]. rewrite Hhere. f_equal.
  rewrite append_length.
  replace (String.length word + String.length rest - String.length rest)%nat
    with (String.length word) by lia.
  apply scan_skip.
Qed.

Lemma extractor_groups_witness :
  FrontPage.mkMatch "913600" "9" "3 hours" ∈
    Extractor.FindAllSubmatch
      ("<td>" +:+ Extractor.fragment "1970-01-11T13:46:40" "913600" "9" "3 hours"
       +:+ "</td>") /\
  ParseInt "913600" = Some 913600.
Proof.
  assert (Hin :
    FrontPage.mkMatch "913600" "9" "3 hours" ∈
      Extractor.FindAllSubmatch
        ("<td>" +:+ Extractor.fragment "1970-01-11T13:46:40" "913600" "9" "3 hours"
         +:+ "</td>")) by (vm_compute; apply list_elem_of_here).
  split; [exact Hin|].
  destruct (extractor_groups _ _ Hin) as (_ & _ & _ & (ts & Hts & _ & Hparse) & _).
  simpl in Hts, Hparse. vm_compute in Hts. injection Hts as <-. exact Hparse.
Defined.

Lemma FindAllSubmatch_resumes_witness :
  Extractor.FindAllSubmatch
    (Extractor.fragment "1970-01-11T13:46:40" "913600" "9" "3 hours"
     +:+ Extractor.fragment "1970-01-12T13:16:40" "998200" "7" "30 minutes") =
  [FrontPage.mkMatch "913600" "9" "3 hours";
   FrontPage.mkMatch "998200" "7" "30 minutes"].
Proof.
  rewrite (FindAllSubmatch_resumes
             (Extractor.fragment "1970-01-11T13:46:40" "913600" "9" "3 hours"
              +:+ Extractor.fragment "1970-01-12T13:16:40" "998200" "7" "30 minutes")
             (Extractor.fragment "1970-01-12T13:16:40" "998200" "7" "30 minutes")
             (FrontPage.mkMatch "913600" "9" "3 hours"))
    by (vm_compute; reflexivity).
  rewrite (FindAllSubmatch_resumes
             (Extractor.fragment "1970-01-12T13:16:40" "998200" "7" "30 minutes")
             EmptyString
             (FrontPage.mkMatch "998200" "7" "30 minutes"))
    by (vm_compute; reflexivity).
  reflexivity.
Defined.

Lemma extract_err_cause
    (now : Go.Time) (matches : list FrontPage.Match) (m0 : gmap Z Z) (e : error) :
  FrontPage.extract now matches m0 = Err e ->
  exists m, m ∈ matches /\
    (e = errParseTime /\ ParseInt (FrontPage.m_ts m) = None \/
     e = errParseID /\ Atoi (FrontPage.m_id m) = None \/
     FrontPage.parseAge (FrontPage.m_age m) = Err e).
Proof.
  revert m0. induction matches as [|mt rest IH]; intros m0 H; simpl in H;
    [discriminate|].
  destruct (ParseInt (FrontPage.m_ts mt)) eqn:Hts;
    [|injection H as <-; exists mt; split; [apply list_elem_of_here | by left]].
  destruct (Atoi (FrontPage.m_id mt)) eqn:Hid;
    [|injection H as <-; exists mt; split; [apply list_elem_of_here | right; by left]].
  destruct (FrontPage.parseAge (FrontPage.m_age mt)) as [age|e1] eqn:Hage.
  - apply IH in H as (m & Hin & Hm). exists m.
    split; [by apply list_elem_of_further | exact Hm].
  - injection H as <-. exists mt. split; [apply list_elem_of_here | right; by right].
Qed.

(** X23: with the extractor of the source, a page that answered 200 and
    was read makes the scrape fail for three reasons only: a matched
    timestamp beyond the largest int64, a matched id beyond it, or a
    matched phrase that [parseAge] refuses. *)
Theorem scrape_errors
    (w w' : FrontPage.World) (env : FrontPage.Env) (now : Go.Time)
    (status body : string) (e : error) :
  FrontPage.answer env = FrontPage.Status 200 status (Some body) ->
  FrontPage.fetchFrontPageTimesInner Extractor.FindAllSubmatch w env now =
    (Err e, w') ->
  exists m, m ∈ Extractor.FindAllSubmatch body /\
    (e = errParseTime /\
     (exists ts, digits_val 0 (FrontPage.m_ts m) = Some ts /\ maxInt64 < ts) \/
     e = errParseID /\
     (exists id, digits_val 0 (FrontPage.m_id m) = Some id /\ maxInt64 < id) \/
     FrontPage.parseAge (FrontPage.m_age m) = Err e).
Proof.
  intros Hanswer Hrun. unfold FrontPage.fetchFrontPageTimesInner in Hrun.
  rewrite Hanswer in Hrun. simpl in Hrun.
  destruct (FrontPage.extract now (Extractor.FindAllSubmatch body) ∅)
    as [m0|e0] eqn:Hex; [discriminate|].
  injection Hrun as <- _.
  apply extract_err_cause in Hex as (m & Hin & Hcause).
  exists m. split; [exact Hin|].
  pose proof Hin as Hgroups. apply scan_elem in Hgroups as (s' & rest & Hhere).
  destruct m as [g1 g2 g3].
  apply match_here_spec in Hhere
    as (x & ws & _ & _ & _ & _ & _ & Hg1 & Hg1d & Hg2 & Hg2d & _).
  simpl in *.
  destruct (ParseInt_digits g1 Hg1 Hg1d) as (ts & Hts & _ & Hpts).
  destruct (ParseInt_digits g2 Hg2 Hg2d) as (id & Hid & _ & Hpid).
  destruct Hcause as [[-> Hnone] | [[-> Hnone] | Hage]].
  - left. split; [reflexivity|]. exists ts. split; [exact Hts|].
    rewrite Hpts in Hnone. destruct (ts <=? maxInt64) eqn:Hle; [discriminate|].
    apply Z.leb_gt in Hle. exact Hle.
  - right. left. split; [reflexivity|]. exists id. split; [exact Hid|].
    unfold Atoi in Hnone. rewrite Hpid in Hnone.
    destruct (id <=? maxInt64) eqn:Hle; [discriminate|].
    apply Z.leb_gt in Hle. exact Hle.
  - right. by right.
Qed.

Lemma scrape_errors_witness :
  exists m,
    m ∈ Extractor.FindAllSubmatch
          (Extractor.fragment "1970-01-11T13:46:40" "913600" "9" "a moment") /\
    FrontPage.parseAge (FrontPage.m_age m) = Err (errUnexpectedAgeFormat "a moment").
Proof.
  destruct (scrape_errors
              Sample.empty (FrontPage.mkWorld None 1)
              (Sample.page
                 (Extractor.fragment "1970-01-11T13:46:40" "913600" "9" "a moment"))
              Sample.now "200 OK"
              (Extractor.fragment "1970-01-11T13:46:40" "913600" "9" "a moment")
              (errUnexpectedAgeFormat "a moment")
              eq_refl ltac:(vm_compute; reflexivity))
    as (m & Hin & [[Hts _] | [[Hid _] | Hage]]); [discriminate | discriminate |].
  by exists m.
Defined.

(** The resolver over the extractor of the source, on a page of two
    fragments read at second 1000000. *)
Example resolver_on_page :
  fst (FrontPage.fetchFrontPageTimes
         Extractor.FindAllSubmatch Sample.empty
         (Sample.page
            ("<table>"
             +:+ Extractor.fragment "1970-01-11T13:46:40" "913600" "9" "3 hours"
             +:+ " | "
             +:+ Extractor.fragment "1970-01-12T13:16:40" "998200" "7" "30 minutes"
             +:+ "</table>"))
         Sample.now) =
  Ok {[ 9 := 989200; 7 := 998200 ]}.
Proof. vm_compute. reflexivity. Qed.
